(** * videoCropROIs: the ROI editor and the batch crop loop of [src/py/crop.py]

    A shallow embedding of class [Roi], of the pointer and keyboard handlers
    of class [RoiWindow] and of [VideoCropperGUI.crop_video], followed by the
    properties of the specification that concern them.

    Python integers are unbounded, so coordinates are [Z].  The collection
    [roiCoordinates] is a Python list indexed by the naturals that
    [enumerate] produces; it is a [list Roi] read with stdpp's lookup.  The
    dictionary built on a body hit is a [gmap nat point].

    The entries of the collection are distinct objects (a committed draft
    is stored as a deep copy), so the in-place mutation of one ROI is the
    update of the list at its index.  A handler that raises returns [None];
    Tk reports the exception and the state a raising handler leaves behind
    is not modelled. *)

From Stdlib Require Import ZArith Lia.
From stdpp Require Import base option list gmap strings pretty.

Local Open Scope Z_scope.

(** ** Class [Roi] *)

(** A point is a two-element list [[x, y]] in the source. *)
Definition point : Type := Z * Z.

(** [Roi.coordinates] is always a list of exactly two points (every
    assignment in the source stores two of them), hence a pair here. *)
Record Roi : Type := mkRoi {
  coordinates : point * point;   (* [top left corner, bottom right corner] *)
  height : Z;
  width : Z;
  status : bool                  (* True, if Roi is new and not yet saved to Roi list *)
}.

Module Roi.

(** [Roi.__init__] *)
Definition init : Roi :=
  {| coordinates := ((0, 0), (0, 0)); height := 0; width := 0; status := false |}.

(** [Roi.setStatus] *)
Definition setStatus (r : Roi) (st : bool) : Roi :=
  {| coordinates := coordinates r; height := height r; width := width r;
     status := st |}.

Definition getStatus (r : Roi) : bool := status r.

(** [Roi.reset]: the corners are overwritten and the flag is cleared;
    [calculateDimensions] is not called. *)
Definition reset (r : Roi) : Roi :=
  setStatus
    {| coordinates := ((0, 0), (0, 0)); height := height r; width := width r;
       status := status r |}
    false.

Definition getHeight (r : Roi) : Z := height r.
Definition getWidth (r : Roi) : Z := width r.

(** [Roi.getCoordinates(i)] for an integer [i]: index 0 or 1, anything
    beyond raises [IndexError] ([None]).  Every caller passes the literal
    0 or 1, or the slice [slice(0, 2)], which yields both corners and is
    modelled by reading [coordinates] itself. *)
Definition getCoordinates (r : Roi) (i : nat) : option point :=
  match i with
  | O => Some (fst (coordinates r))
  | S O => Some (snd (coordinates r))
  | _ => None
  end.

(** [Roi.sortCoordinates] *)
Definition sortCoordinates (r : Roi) : Roi :=
  let '((x0, y0), (x1, y1)) := coordinates r in
  {| coordinates := ((Z.min x0 x1, Z.min y0 y1), (Z.max x0 x1, Z.max y0 y1));
     height := height r; width := width r; status := status r |}.

(** [Roi.calculateDimensions] *)
Definition calculateDimensions (r : Roi) : Roi :=
  let '((x0, y0), (x1, y1)) := coordinates r in
  {| coordinates := coordinates r;
     height := y1 - y0; width := x1 - x0; status := status r |}.

(** [self.coordinates[i] = [x, y]] *)
Definition storeCorner (r : Roi) (i : nat) (p : point) : option Roi :=
  match i with
  | O => Some {| coordinates := (p, snd (coordinates r));
                 height := height r; width := width r; status := status r |}
  | S O => Some {| coordinates := (fst (coordinates r), p);
                   height := height r; width := width r; status := status r |}
  | _ => None
  end.

(** [Roi.setCoordinates(i, x, y, sort)] *)
Definition setCoordinates (r : Roi) (i : nat) (x y : Z) (sort : bool) : option Roi :=
  r1 ← storeCorner r i (x, y);
  Some (calculateDimensions (if sort then sortCoordinates r1 else r1)).

(** [Roi.setRoi(a, b)] *)
Definition setRoi (r : Roi) (a b : point) : Roi :=
  calculateDimensions
    (sortCoordinates
       {| coordinates := (a, b); height := height r; width := width r;
          status := status r |}).

End Roi.

(** ** Class [RoiWindow]: the editing session *)

(** A handle mask is the tuple [(left, top, right, bottom)] of integers. *)
Definition mask : Type := Z * Z * Z * Z.

Definition mask_left (m : mask) : Z := let '(l, _, _, _) := m in l.     (* [m[0]] *)
Definition mask_top (m : mask) : Z := let '(_, t, _, _) := m in t.      (* [m[1]] *)
Definition mask_right (m : mask) : Z := let '(_, _, r, _) := m in r.    (* [m[2]] *)
Definition mask_bottom (m : mask) : Z := let '(_, _, _, b) := m in b.   (* [m[3]] *)

(** [self.relativeCoordinates] holds a list ([[]] at start, [[dx, dy]] after
    a handle hit) or the dictionary index -> [[dx, dy]] built on a body hit. *)
Inductive RelCoords : Type :=
  | RelList (l : list Z)
  | RelDict (d : gmap nat point).

(** The fields of [RoiWindow] that the handlers read and write.  Widgets,
    the frame buffers and the drawing calls have no effect on them and are
    left out. *)
Record RoiWindow : Type := mkRoiWindow {
  roiCoordinates : list Roi;
  newRoi : Roi;
  relativeCoordinates : RelCoords;
  saved : bool;                         (* for exit dialog *)
  dragging : option nat;                (* for dragging a roi *)
  resizing : option (nat * mask);       (* for resizing a roi *)
  selection : list nat
}.

Definition set_roiCoordinates (w : RoiWindow) (v : list Roi) : RoiWindow :=
  mkRoiWindow v (newRoi w) (relativeCoordinates w) (saved w) (dragging w)
    (resizing w) (selection w).
Definition set_newRoi (w : RoiWindow) (v : Roi) : RoiWindow :=
  mkRoiWindow (roiCoordinates w) v (relativeCoordinates w) (saved w) (dragging w)
    (resizing w) (selection w).
Definition set_relativeCoordinates (w : RoiWindow) (v : RelCoords) : RoiWindow :=
  mkRoiWindow (roiCoordinates w) (newRoi w) v (saved w) (dragging w)
    (resizing w) (selection w).
Definition set_saved (w : RoiWindow) (v : bool) : RoiWindow :=
  mkRoiWindow (roiCoordinates w) (newRoi w) (relativeCoordinates w) v (dragging w)
    (resizing w) (selection w).
Definition set_dragging (w : RoiWindow) (v : option nat) : RoiWindow :=
  mkRoiWindow (roiCoordinates w) (newRoi w) (relativeCoordinates w) (saved w) v
    (resizing w) (selection w).
Definition set_resizing (w : RoiWindow) (v : option (nat * mask)) : RoiWindow :=
  mkRoiWindow (roiCoordinates w) (newRoi w) (relativeCoordinates w) (saved w)
    (dragging w) v (selection w).
Definition set_selection (w : RoiWindow) (v : list nat) : RoiWindow :=
  mkRoiWindow (roiCoordinates w) (newRoi w) (relativeCoordinates w) (saved w)
    (dragging w) (resizing w) v.

(** [RoiWindow.__init__(master, roiCoordinates, saveCallback)]: the state
    part.  [copy.deepcopy] of a list of values is the list itself. *)
Definition RoiWindow_init (rois : list Roi) : RoiWindow :=
  {| roiCoordinates := rois; newRoi := Roi.init; relativeCoordinates := RelList [];
     saved := true; dragging := None; resizing := None; selection := [] |}.

(** [self.resetSelection()] *)
Definition resetSelection (w : RoiWindow) : RoiWindow := set_selection w [].

(** The chained comparison [a <= x <= b]. *)
Definition between (a x b : Z) : bool := (a <=? x) && (x <=? b).

Definition radius : Z := 10.

(** A handle hit: [self.resizing = (idx, m)] and
    [self.relativeCoordinates = [rx, ry]]. *)
Definition grab (w : RoiWindow) (idx : nat) (m : mask) (rx ry : Z) : RoiWindow :=
  set_relativeCoordinates (set_resizing w (Some (idx, m))) (RelList [rx; ry]).

(** One iteration of the [for idx, roi in enumerate(self.roiCoordinates)]
    loop of [leftMouseDown]: the [if]/[elif] chain over the four corner
    zones, the four edge zones and the body. *)
Definition leftMouseDown_body (x y : Z) (idx : nat) (roi : Roi) (w : RoiWindow)
    : RoiWindow :=
  let '((x1, y1), (x2, y2)) := coordinates roi in
  if between (x1 - radius * 2) x (x1 + radius * 2)
     && between (y1 - radius * 2) y (y1 + radius * 2) then
    (* top-left *)
    grab w idx (1, 1, 0, 0) (x1 - x) (y1 - y)
  else if between (x2 - radius * 2) x (x2 + radius * 2)
          && between (y1 - radius * 2) y (y1 + radius * 2) then
    (* top-right *)
    grab w idx (0, 1, 1, 0) (x2 - x) (y1 - y)
  else if between (x1 - radius * 2) x (x1 + radius * 2)
          && between (y2 - radius * 2) y (y2 + radius * 2) then
    (* bottom-left *)
    grab w idx (1, 0, 0, 1) (x1 - x) (y2 - y)
  else if between (x2 - radius * 2) x (x2 + radius * 2)
          && between (y2 - radius * 2) y (y2 + radius * 2) then
    (* bottom-right *)
    grab w idx (0, 0, 1, 1) (x2 - x) (y2 - y)
  else if between (x1 - radius) x (x2 + radius)
          && between (y1 - radius) y (y1 + radius) then
    (* top *)
    grab w idx (0, 1, 0, 0) x (y1 - y)
  else if between (x1 - radius) x (x2 + radius)
          && between (y2 - radius) y (y2 + radius) then
    (* bottom *)
    grab w idx (0, 0, 0, 1) x (y2 - y)
  else if between (x1 - radius) x (x1 + radius)
          && between (y1 - radius) y (y2 + radius) then
    (* left *)
    grab w idx (1, 0, 0, 0) (x1 - x) y
  else if between (x2 - radius) x (x2 + radius)
          && between (y1 - radius) y (y2 + radius) then
    (* right *)
    grab w idx (0, 0, 1, 0) (x2 - x) y
  else if between x1 x x2 && between y1 y y2 then
    set_dragging w (Some idx)
  else w.

(** The loop itself.  Its body holds no [break]: every ROI of the
    collection is visited, in order, starting at index [idx]. *)
Fixpoint leftMouseDown_loop (x y : Z) (idx : nat) (rois : list Roi) (w : RoiWindow)
    : RoiWindow :=
  match rois with
  | [] => w
  | roi :: rest => leftMouseDown_loop x y (S idx) rest (leftMouseDown_body x y idx roi w)
  end.

(** [for idx in self.selection: ... self.relativeCoordinates[idx] = [x1 - x, y1 - y]];
    [self.roiCoordinates[idx]] raises [IndexError] out of range. *)
Fixpoint record_offsets (x y : Z) (rois : list Roi) (sel : list nat)
    (d : gmap nat point) : option (gmap nat point) :=
  match sel with
  | [] => Some d
  | idx :: rest =>
      roi ← rois !! idx;
      let '((x1, y1), _) := coordinates roi in
      record_offsets x y rois rest (<[idx := (x1 - x, y1 - y)]> d)
  end.

(** [RoiWindow.leftMouseDown].  A handler returns [None] when the source
    raises; the state left behind by a raising handler is not modelled.
    The [else] clause of the [for] loop runs whenever the loop ends without
    [break], that is always. *)
Definition leftMouseDown (w : RoiWindow) (x y : Z) : option RoiWindow :=
  let w1 := leftMouseDown_loop x y 0 (roiCoordinates w) w in
  nr ← Roi.setCoordinates (newRoi w1) 0 x y false;
  let w2 := set_newRoi w1 nr in
  match resizing w2 with
  | Some r => Some (set_selection w2 [fst r])
  | None =>
      match dragging w2 with
      | Some d =>
          let w3 := if decide (d ∈ selection w2) then w2 else set_selection w2 [d] in
          rel ← record_offsets x y (roiCoordinates w3) (selection w3) ∅;
          Some (set_relativeCoordinates w3 (RelDict rel))
      | None => Some (resetSelection w2)
      end
  end.

(** [RoiWindow.leftMouseUp]; [copy.deepcopy(self.newRoi)] is the value of
    the draft at that moment. *)
Definition leftMouseUp (w : RoiWindow) (x y : Z) : option RoiWindow :=
  match resizing w with
  | Some _ => Some (set_resizing (set_selection w []) None)
  | None =>
      match dragging w with
      | Some _ => Some (set_dragging w None)
      | None =>
          nr ← Roi.setCoordinates (newRoi w) 1 x y false;
          let w1 := set_newRoi w nr in
          let w2 := set_roiCoordinates w1 (roiCoordinates w1 ++ [newRoi w1]) in
          let w3 := set_newRoi w2 (Roi.reset (newRoi w2)) in
          Some (set_selection w3 [])
      end
  end.

(** [self.relativeCoordinates[idx]] read as a dictionary entry: on the
    list form the source indexes an integer (or runs out of range) and
    raises. *)
Definition rel_entry (rel : RelCoords) (idx : nat) : option point :=
  match rel with
  | RelDict d => d !! idx
  | RelList _ => None
  end.

(** [self.relativeCoordinates[i]] read as a number: on the dictionary form
    the source gets [KeyError], or a list that cannot be added to [x]. *)
Definition rel_component (rel : RelCoords) (i : nat) : option Z :=
  match rel with
  | RelList l => l !! i
  | RelDict _ => None
  end.

(** The dragging loop of [leftMouseMove]: each selected ROI object is
    updated in place with [setRoi]; width and height are read from the ROI
    as it is when its turn comes. *)
Fixpoint drag_selection (x y : Z) (rel : RelCoords) (sel : list nat)
    (rois : list Roi) : option (list Roi) :=
  match sel with
  | [] => Some rois
  | idx :: rest =>
      roi ← rois !! idx;
      off ← rel_entry rel idx;
      let roi' :=
        Roi.setRoi roi
          (x + fst off, y + snd off)
          (Roi.getWidth roi + x + fst off, Roi.getHeight roi + y + snd off) in
      drag_selection x y rel rest (<[idx := roi']> rois)
  end.

(** The resizing branch of [leftMouseMove] on the grabbed ROI: four
    independent [if]s, in the order top, bottom, left, right, each a
    [setCoordinates] with [sort=True]. *)
Definition resize_roi (x y : Z) (m : mask) (rel : RelCoords) (roi : Roi)
    : option Roi :=
  r1 ← (if mask_top m =? 1 then
          p ← Roi.getCoordinates roi 0;
          ry ← rel_component rel 1;
          Roi.setCoordinates roi 0 (fst p) (y + ry) true
        else Some roi);
  r2 ← (if mask_bottom m =? 1 then
          p ← Roi.getCoordinates r1 1;
          ry ← rel_component rel 1;
          Roi.setCoordinates r1 1 (fst p) (y + ry) true
        else Some r1);
  r3 ← (if mask_left m =? 1 then
          rx ← rel_component rel 0;
          p ← Roi.getCoordinates r2 0;
          Roi.setCoordinates r2 0 (x + rx) (snd p) true
        else Some r2);
  (if mask_right m =? 1 then
     rx ← rel_component rel 0;
     p ← Roi.getCoordinates r3 1;
     Roi.setCoordinates r3 1 (x + rx) (snd p) true
   else Some r3).

(** [RoiWindow.leftMouseMove] *)
Definition leftMouseMove (w : RoiWindow) (x y : Z) : option RoiWindow :=
  match dragging w with
  | Some _ =>
      if (0 <? length (selection w))%nat then
        rois ← drag_selection x y (relativeCoordinates w) (selection w)
                 (roiCoordinates w);
        Some (set_roiCoordinates w rois)
      else Some w
  | None =>
      match resizing w with
      | Some (idx, m) =>
          roi ← roiCoordinates w !! idx;
          roi' ← resize_roi x y m (relativeCoordinates w) roi;
          Some (set_roiCoordinates w (<[idx := roi']> (roiCoordinates w)))
      | None =>
          (* when creating a new roi *)
          nr ← Roi.setCoordinates (Roi.setStatus (newRoi w) true) 1 x y false;
          Some (set_newRoi w nr)
      end
  end.

(** [RoiWindow.mouseMove] only configures the cursor. *)
Definition mouseMove (w : RoiWindow) (x y : Z) : RoiWindow := w.

(** [RoiWindow.rightMouseDown]: every ROI whose body holds the point
    becomes the selection in turn (the pop-up menus are not modelled). *)
Fixpoint rightMouseDown_loop (x y : Z) (idx : nat) (rois : list Roi) (w : RoiWindow)
    : RoiWindow :=
  match rois with
  | [] => w
  | roi :: rest =>
      let '((x1, y1), (x2, y2)) := coordinates roi in
      rightMouseDown_loop x y (S idx) rest
        (if between x1 x x2 && between y1 y y2 then set_selection w [idx] else w)
  end.

Definition rightMouseDown (w : RoiWindow) (x y : Z) : RoiWindow :=
  rightMouseDown_loop x y 0 (roiCoordinates w) w.

(** [RoiWindow.shiftLeftMouseDown] *)
Fixpoint shiftLeftMouseDown_loop (x y : Z) (idx : nat) (rois : list Roi)
    (w : RoiWindow) : RoiWindow :=
  match rois with
  | [] => w
  | roi :: rest =>
      let '((x1, y1), (x2, y2)) := coordinates roi in
      shiftLeftMouseDown_loop x y (S idx) rest
        (if between x1 x x2 && between y1 y y2 then
           if decide (idx ∈ selection w) then w
           else set_selection w (selection w ++ [idx])
         else w)
  end.

Definition shiftLeftMouseDown (w : RoiWindow) (x y : Z) : RoiWindow :=
  shiftLeftMouseDown_loop x y 0 (roiCoordinates w) w.

(** The fields of a Tk event that [mouseEvent] reads. *)
Inductive EventType : Type := ButtonPress | ButtonRelease | Motion | OtherEvent.

Record Event : Type := mkEvent {
  ev_type : EventType;
  ev_num : Z;
  ev_state : Z;
  ev_x : Z;
  ev_y : Z
}.

(** [RoiWindow.mouseEvent]; [event.state & 0x0001] is the shift bit. *)
Definition mouseEvent (w : RoiWindow) (e : Event) : option RoiWindow :=
  let x := ev_x e in
  let y := ev_y e in
  match ev_type e with
  | ButtonPress =>
      if ev_num e =? 1 then
        if negb (Z.land (ev_state e) 1 =? 0) then Some (shiftLeftMouseDown w x y)
        else leftMouseDown (set_saved w false) x y
      else if ev_num e =? 3 then Some (rightMouseDown w x y)
      else Some w
  | ButtonRelease =>
      if (ev_num e =? 1) && (Z.land (ev_state e) 1 =? 0) then
        leftMouseUp (set_saved w false) x y
      else Some w
  | Motion =>
      if ev_state e =? 264 then leftMouseMove w x y
      else if ev_state e =? 1032 then Some w
      else Some (mouseMove w x y)
  | OtherEvent => Some w
  end.

(** [RoiWindow.saveRois]: the callback receives [self.roiCoordinates]. *)
Definition saveRois (w : RoiWindow) : RoiWindow := set_saved w true.

(** The argument of [deleteRoi]: an [int] (context menu) or a [list]
    ([delete], "Delete all ROIs"). *)
Inductive DeleteKey : Type :=
  | KeyInt (k : nat)
  | KeyList (l : list nat).

(** [[item for index, item in enumerate(rois) if index not in key]] *)
Fixpoint drop_indices (key : list nat) (idx : nat) (rois : list Roi) : list Roi :=
  match rois with
  | [] => []
  | item :: rest =>
      if decide (idx ∈ key) then drop_indices key (S idx) rest
      else item :: drop_indices key (S idx) rest
  end.

(** [RoiWindow.deleteRoi]; [list.pop(k)] raises [IndexError] out of range. *)
Definition deleteRoi (w : RoiWindow) (key : DeleteKey) : option RoiWindow :=
  match key with
  | KeyInt k =>
      _ ← roiCoordinates w !! k;
      Some (resetSelection (set_roiCoordinates w (delete k (roiCoordinates w))))
  | KeyList l =>
      Some (resetSelection (set_roiCoordinates w (drop_indices l 0 (roiCoordinates w))))
  end.

(** [RoiWindow.selectAll], [RoiWindow.delete], [RoiWindow.escape] *)
Definition selectAll (w : RoiWindow) : RoiWindow :=
  set_selection w (seq 0 (length (roiCoordinates w))).

Definition delete_key (w : RoiWindow) : option RoiWindow :=
  deleteRoi w (KeyList (selection w)).

Definition escape (w : RoiWindow) : RoiWindow := resetSelection w.

(** The [close] callback of [RoiWindow.editRoi(roiKey)].  [X_1 .. Y_2] are
    the values of the four editable entries when the dialog closes (the
    height and width entries are disabled), [response] the answer to the
    confirmation question, asked only when a value changed. *)
Definition editRoi_close (w : RoiWindow) (roiKey : nat) (X_1 Y_1 X_2 Y_2 : Z)
    (response : bool) : option RoiWindow :=
  roi ← roiCoordinates w !! roiKey;
  if bool_decide (((X_1, Y_1), (X_2, Y_2)) = coordinates roi) then Some w
  else if response then
    ra ← Roi.setCoordinates roi 0 X_1 Y_1 true;
    rb ← Roi.setCoordinates ra 1 X_2 Y_2 true;
    Some (set_roiCoordinates w (<[roiKey := rb]> (roiCoordinates w)))
  else Some w.

(** [RoiWindow.importRoisFile].  [path] tells whether a file was chosen,
    [loaded] is what [pickle.load] returns ([None] when opening or
    unpickling raises: the handler prints and returns), [option] the answer
    to "Do you want to replace the existing ROIs?". *)
Definition importRoisFile (w : RoiWindow) (path : bool) (loaded : option (list Roi))
    (option : bool) : RoiWindow :=
  if path then
    match loaded with
    | Some l =>
        if (0 <? length (roiCoordinates w))%nat then
          (* at least 1 ROI already exists *)
          if option then set_roiCoordinates w l
          else set_roiCoordinates w (roiCoordinates w ++ l)
        else set_roiCoordinates w l
    | None => w
    end
  else w.

(** The events a session can receive, and one step of the session. *)
Inductive SessionEvent : Type :=
  | EvMouse (e : Event)
  | EvSave
  | EvSelectAll
  | EvDelete
  | EvEscape
  | EvMenuDelete (k : nat)
  | EvEditClose (roiKey : nat) (X_1 Y_1 X_2 Y_2 : Z) (response : bool)
  | EvImport (path : bool) (loaded : option (list Roi)) (option : bool).

Definition session_step (w : RoiWindow) (ev : SessionEvent) : option RoiWindow :=
  match ev with
  | EvMouse e => mouseEvent w e
  | EvSave => Some (saveRois w)
  | EvSelectAll => Some (selectAll w)
  | EvDelete => delete_key w
  | EvEscape => Some (escape w)
  | EvMenuDelete k => deleteRoi w (KeyInt k)
  | EvEditClose k a b c d r => editRoi_close w k a b c d r
  | EvImport p l o => Some (importRoisFile w p l o)
  end.

(** A run of events; it stops with [None] at the first handler that raises. *)
Fixpoint session_run (w : RoiWindow) (evs : list SessionEvent) : option RoiWindow :=
  match evs with
  | [] => Some w
  | ev :: rest => w' ← session_step w ev; session_run w' rest
  end.

(** Pointer events as Tk delivers them: button 1 pressed or released
    without modifier, and a motion with button 1 held (state 264). *)
Definition down (x y : Z) : SessionEvent := EvMouse (mkEvent ButtonPress 1 8 x y).
Definition move (x y : Z) : SessionEvent := EvMouse (mkEvent Motion 0 264 x y).
Definition up (x y : Z) : SessionEvent := EvMouse (mkEvent ButtonRelease 1 264 x y).

(** ** [VideoCropperGUI.crop_video]: the batch loop *)

(** One call of the transcoder:
    [ffmpeg.input(video_path, ss=0).output(output_path, vcodec='libx264', crf=22, vf=filter)]. *)
Record Job : Type := mkJob {
  job_input : string;
  job_vf : string;
  job_output : string
}.

(** What [crop_video] does to its environment, in order.  [Progress n t]
    is the update after a successful job: [status_var.set((n / t) * 100)]
    followed by [status_bar.update()]; the floating-point value itself is
    not computed here. *)
Inductive Effect : Type :=
  | ShowError (title : string)
  | StatusReset
  | ShowProgressBar
  | OpenCapture (video_path : string)
  | MakeDirs (subfolder : string)
  | RunTranscoder (j : Job)
  | Progress (rendered_video total_crops : nat)
  | ReleaseCapture (video_path : string)
  | CloseProgressWindow.

Inductive Outcome : Type :=
  | Finished          (* the method ran to its end *)
  | Returned          (* an early [return] after an error message *)
  | Raised.           (* an exception left the method *)

Record LoopState : Type := mkLoopState {
  dirs : list string;            (* the directories that exist *)
  rendered_video : nat;
  trace : list Effect
}.

Definition emit (st : LoopState) (e : Effect) : LoopState :=
  mkLoopState (dirs st) (rendered_video st) (trace st ++ [e]).

Section crop_video.

(** Library functions and the outside world.  [stem p] is
    [os.path.splitext(os.path.basename(p))[0]], [path_join] is
    [os.path.join]; [makedirs_ok] and [ffmpeg_run] tell which calls
    succeed. *)
Variable stem : string → string.
Variable path_join : string → string → string.
Variable makedirs_ok : string → bool.
Variable ffmpeg_run : Job → bool.

(** The fields of the GUI that the loop reads.  [output_folder] is
    [self.output_folder] as [select_output_folder] leaves it: the answer
    of the folder dialog. *)
Variable output_folder : string.
Variable boleanFilter : Z.
Variable textFilter : string.     (* [self.textFilter.get("1.0", tk.END)] *)

Definition crop_filter (roi : Roi) : string :=
  let '((x1, y1), (x2, y2)) := coordinates roi in
  let filter :=
    "crop=" +:+ pretty (x2 - x1) +:+ ":" +:+ pretty (y2 - y1) +:+ ":"
    +:+ pretty x1 +:+ ":" +:+ pretty y1 in
  if boleanFilter =? 1 then filter +:+ ", " +:+ textFilter else filter.

Definition subfolder_of (video_path : string) : string :=
  path_join output_folder (stem video_path).

Definition crop_job (video_path : string) (i : nat) (roi : Roi) : Job :=
  let output_filename := stem video_path +:+ "_" +:+ pretty i +:+ "_cropped.mp4" in
  {| job_input := video_path;
     job_vf := crop_filter roi;
     job_output := path_join (subfolder_of video_path) output_filename |}.

(** The inner loop [for roi_list in roi_list_per_video]; [i] counts the
    ROIs already handled.  [inr] is the early [return] on a directory
    that cannot be created. *)
Fixpoint crop_rois (video_path : string) (total_crops : nat) (i : nat)
    (rois : list Roi) (st : LoopState) : LoopState + LoopState :=
  match rois with
  | [] => inl st
  | roi :: rest =>
      let i := S i in
      let subfolder := subfolder_of video_path in
      let made :=
        if bool_decide (subfolder ∈ dirs st) then inl st
        else
          let st1 := emit st (MakeDirs subfolder) in
          if makedirs_ok subfolder then
            inl (mkLoopState (subfolder :: dirs st1) (rendered_video st1) (trace st1))
          else inr (emit st1 (ShowError "Error Creating Directory")) in
      match made with
      | inr st' => inr st'
      | inl st1 =>
          let j := crop_job video_path i roi in
          let st2 := emit st1 (RunTranscoder j) in
          let st3 :=
            if ffmpeg_run j then
              let n := S (rendered_video st2) in
              emit (mkLoopState (dirs st2) n (trace st2)) (Progress n total_crops)
            else emit st2 (ShowError "An error occurred:") in
          crop_rois video_path total_crops i rest st3
      end
  end.

(** The outer loop [for video_path, roi_list_per_video in self.roi_dict.items()]. *)
Fixpoint crop_videos (total_crops : nat) (items : list (string * list Roi))
    (st : LoopState) : LoopState + LoopState :=
  match items with
  | [] => inl st
  | (video_path, roi_list_per_video) :: rest =>
      match roi_list_per_video with
      | [] => crop_videos total_crops rest st
      | _ =>
          match crop_rois video_path total_crops 0 roi_list_per_video
                  (emit st (OpenCapture video_path)) with
          | inr st' => inr st'
          | inl st' => crop_videos total_crops rest (emit st' (ReleaseCapture video_path))
          end
      end
  end.

(** [sum(len(liste) for liste in self.roi_dict.values())] *)
Definition total_crops_of (roi_dict : list (string * list Roi)) : nat :=
  foldr (λ item acc, (length (snd item) + acc)%nat) 0%nat roi_dict.

(** [VideoCropperGUI.crop_video].  [roi_dict] lists the items of the
    dictionary in insertion order, [existing] the directories present at
    the start.  [select_output_folder] raises when the dialog returns an
    empty answer, so the test on [self.output_folder] that follows it
    never fires. *)
Definition crop_video (working_video_path : string)
    (roi_dict : list (string * list Roi)) (existing : list string)
    : Outcome * LoopState :=
  let st0 := mkLoopState existing 0 [] in
  if bool_decide (working_video_path = "") then
    (Returned, emit st0 (ShowError "Input Video Not Selected"))
  else if (length roi_dict <? 1)%nat then
    (Returned, emit st0 (ShowError "No ROIs selected"))
  else if bool_decide (output_folder = "") then (Raised, st0)
  else if bool_decide (output_folder = "") then
    (Returned, emit st0 (ShowError "No output folder selected"))
  else
    let st1 := emit (emit st0 StatusReset) ShowProgressBar in
    match crop_videos (total_crops_of roi_dict) roi_dict st1 with
    | inr st' => (Returned, st')
    | inl st' => (Finished, emit st' CloseProgressWindow)
    end.

End crop_video.

(** Readings of a trace. *)
Definition error_messages (t : list Effect) : list string :=
  omap (λ e, match e with ShowError title => Some title | _ => None end) t.

Definition progress_updates (t : list Effect) : list (nat * nat) :=
  omap (λ e, match e with Progress n total => Some (n, total) | _ => None end) t.

Definition transcoder_jobs (t : list Effect) : list Job :=
  omap (λ e, match e with RunTranscoder j => Some j | _ => None end) t.

(** ** Vocabulary of the specification *)

(** The Rectangle invariant: corner 0 holds the minima and corner 1 the
    maxima; the derived fields agree with the corners. *)
Definition normalized (r : Roi) : Prop :=
  let '((x0, y0), (x1, y1)) := coordinates r in x0 ≤ x1 ∧ y0 ≤ y1.

Definition dimensions_current (r : Roi) : Prop :=
  let '((x0, y0), (x1, y1)) := coordinates r in
  width r = x1 - x0 ∧ height r = y1 - y0.

Definition rectangle_invariant (r : Roi) : Prop :=
  normalized r ∧ dimensions_current r ∧ 0 ≤ width r ∧ 0 ≤ height r.

(** A ROI moved by [(dx, dy)] with its size and flag kept. *)
Definition translate (r : Roi) (dx dy : Z) : Roi :=
  let '((x0, y0), (x1, y1)) := coordinates r in
  {| coordinates := ((x0 + dx, y0 + dy), (x1 + dx, y1 + dy));
     height := height r; width := width r; status := status r |}.

(** The result of testing a point against one ROI. *)
Inductive Hit : Type :=
  | HandleHit (m : mask) (rx ry : Z)    (* the mask and the offsets recorded *)
  | BodyHit
  | NoHit.

Definition is_handle (h : Hit) : bool :=
  match h with HandleHit _ _ _ => true | _ => false end.

(** What the chain of [leftMouseDown_body] does with a hit. *)
Definition act_on_hit (idx : nat) (h : Hit) (w : RoiWindow) : RoiWindow :=
  match h with
  | HandleHit m rx ry => grab w idx m rx ry
  | BodyHit => set_dragging w (Some idx)
  | NoHit => w
  end.

(** A hot zone: the closed box [xlo <= x <= xhi], [ylo <= y <= yhi]. *)
Record Zone : Type := mkZone { xlo : Z; xhi : Z; ylo : Z; yhi : Z }.

Definition in_zone (x y : Z) (z : Zone) : bool :=
  between (xlo z) x (xhi z) && between (ylo z) y (yhi z).

(** The zones of a ROI in the precedence order of the specification, with
    base handle radius R = 10: four corner squares of half-width 2R, four
    edge bands of half-width R (lengthened by R at both ends), the body. *)
Definition zones_by_precedence (x y : Z) (roi : Roi) : list (Zone * Hit) :=
  let '((x1, y1), (x2, y2)) := coordinates roi in
  [ (mkZone (x1 - 20) (x1 + 20) (y1 - 20) (y1 + 20), HandleHit (1, 1, 0, 0) (x1 - x) (y1 - y));
    (mkZone (x2 - 20) (x2 + 20) (y1 - 20) (y1 + 20), HandleHit (0, 1, 1, 0) (x2 - x) (y1 - y));
    (mkZone (x1 - 20) (x1 + 20) (y2 - 20) (y2 + 20), HandleHit (1, 0, 0, 1) (x1 - x) (y2 - y));
    (mkZone (x2 - 20) (x2 + 20) (y2 - 20) (y2 + 20), HandleHit (0, 0, 1, 1) (x2 - x) (y2 - y));
    (mkZone (x1 - 10) (x2 + 10) (y1 - 10) (y1 + 10), HandleHit (0, 1, 0, 0) x (y1 - y));
    (mkZone (x1 - 10) (x2 + 10) (y2 - 10) (y2 + 10), HandleHit (0, 0, 0, 1) x (y2 - y));
    (mkZone (x1 - 10) (x1 + 10) (y1 - 10) (y2 + 10), HandleHit (1, 0, 0, 0) (x1 - x) y);
    (mkZone (x2 - 10) (x2 + 10) (y1 - 10) (y2 + 10), HandleHit (0, 0, 1, 0) (x2 - x) y);
    (mkZone x1 x2 y1 y2, BodyHit) ].

(** First match wins. *)
Fixpoint first_match (x y : Z) (zs : list (Zone * Hit)) : Hit :=
  match zs with
  | [] => NoHit
  | (z, h) :: rest => if in_zone x y z then h else first_match x y rest
  end.

Definition classify (x y : Z) (roi : Roi) : Hit :=
  first_match x y (zones_by_precedence x y roi).



(** The three interaction modes of a session. *)
Definition dragging_active (w : RoiWindow) : bool := bool_decide (dragging w ≠ None).
Definition resizing_active (w : RoiWindow) : bool := bool_decide (resizing w ≠ None).
Definition drafting_active (w : RoiWindow) : bool := Roi.getStatus (newRoi w).

Definition active_modes (w : RoiWindow) : nat :=
  (Nat.b2n (dragging_active w) + Nat.b2n (resizing_active w)
   + Nat.b2n (drafting_active w))%nat.

(** The frame condition on a resize as the specification words it: a
    corner coordinate whose flag is not set keeps its value. *)
Definition unflagged_coordinates_unchanged (m : mask) (roi roi' : Roi) : Prop :=
  let '((x0, y0), (x1, y1)) := coordinates roi in
  let '((x0', y0'), (x1', y1')) := coordinates roi' in
  (mask_left m ≠ 1 → x0' = x0) ∧ (mask_top m ≠ 1 → y0' = y0) ∧
  (mask_right m ≠ 1 → x1' = x1) ∧ (mask_bottom m ≠ 1 → y1' = y1).

(** The validation the specification asks of an import: an entry of
    negative width or height. *)
Definition negative_entry (l : list Roi) : Prop :=
  ∃ r, r ∈ l ∧ (width r < 0 ∨ height r < 0).

(** The concrete ROIs used in the examples below. *)
Definition roi_square : Roi :=
  {| coordinates := ((0, 0), (100, 100)); height := 100; width := 100; status := false |}.
Definition roi_shifted : Roi :=
  {| coordinates := ((30, 30), (130, 130)); height := 100; width := 100; status := false |}.
Definition roi_far : Roi :=
  {| coordinates := ((50, 50), (200, 200)); height := 150; width := 150; status := false |}.
Definition roi_wide : Roi :=
  {| coordinates := ((10, 10), (110, 60)); height := 50; width := 100; status := false |}.
Definition roi_backwards : Roi :=
  {| coordinates := ((50, 60), (10, 10)); height := -50; width := -40; status := false |}.

(** The rejection the specification asks of an import, at one input. *)
Definition import_rejects_negative_entries (w : RoiWindow) (l : list Roi)
    (option : bool) : Prop :=
  negative_entry l →
  roiCoordinates (importRoisFile w true (Some l) option) = roiCoordinates w.

(** The last ROI, from index [idx] on, one of whose handles holds the
    point, with the mask and offsets of that handle; and the last one whose
    body is hit. *)
Fixpoint last_handle (x y : Z) (idx : nat) (rois : list Roi)
    : option (nat * mask * Z * Z) :=
  match rois with
  | [] => None
  | roi :: rest =>
      match last_handle x y (S idx) rest with
      | Some r => Some r
      | None =>
          match classify x y roi with
          | HandleHit m rx ry => Some (idx, m, rx, ry)
          | _ => None
          end
      end
  end.

Fixpoint last_body (x y : Z) (idx : nat) (rois : list Roi) : option nat :=
  match rois with
  | [] => None
  | roi :: rest =>
      match last_body x y (S idx) rest with
      | Some i => Some i
      | None =>
          match classify x y roi with
          | BodyHit => Some idx
          | _ => None
          end
      end
  end.

(** Where the dragging loop puts a ROI: corner 0 at the pointer plus the
    recorded offset, corner 1 further by the stored width and height. *)
Definition placed (x y : Z) (off : point) (roi : Roi) : Roi :=
  {| coordinates := ((x + fst off, y + snd off),
                     (width roi + x + fst off, height roi + y + snd off));
     height := height roi; width := width roi; status := status roi |}.

(** The pointer-move events through a list of positions. *)
Definition moves (pts : list (Z * Z)) : list SessionEvent :=
  map (λ p, move (fst p) (snd p)) pts.

(** The drag property as the specification words it, for one move from the
    drag start [(x0, y0)] to [(x, y)]: every selected ROI is translated by
    the pointer's displacement, width and height kept, and the others are
    unchanged. *)
Definition drag_move_translates (w1 : RoiWindow) (x0 y0 x y : Z) : Prop :=
  ∃ w2, session_run w1 [move x y] = Some w2 ∧
    (∀ (idx : nat) (roi : Roi),
       idx ∈ selection w1 → roiCoordinates w1 !! idx = Some roi →
       roiCoordinates w2 !! idx = Some (translate roi (x - x0) (y - y0))) ∧
    (∀ idx : nat,
       idx ∉ selection w1 → roiCoordinates w2 !! idx = roiCoordinates w1 !! idx).

(** A session [w] in the course of the drag that started in [w0]: same
    mode, offsets and selection; the selected ROIs have the stored size and
    flag they had at the start, the others are as they were. *)
Definition drag_state (d : nat) (rel : gmap nat point) (w0 w : RoiWindow) : Prop :=
  dragging w = Some d ∧ relativeCoordinates w = RelDict rel ∧
  selection w = selection w0 ∧
  (∀ idx : nat, idx ∈ selection w0 →
     ∃ roi0 roi off,
       roiCoordinates w0 !! idx = Some roi0 ∧ roiCoordinates w !! idx = Some roi ∧
       rel !! idx = Some off ∧
       width roi = width roi0 ∧ height roi = height roi0 ∧ status roi = status roi0 ∧
       0 ≤ width roi0 ∧ 0 ≤ height roi0) ∧
  (∀ idx : nat, idx ∉ selection w0 → roiCoordinates w !! idx = roiCoordinates w0 !! idx).

(** A session on two disjoint ROIs, both selected, and the same session
    after a pointer-down at (50,50), inside the body of the first. *)
Definition roi_apart : Roi :=
  {| coordinates := ((300, 300), (400, 400)); height := 100; width := 100;
     status := false |}.

Definition two_selected : RoiWindow :=
  selectAll (RoiWindow_init [roi_square; roi_apart]).

Definition drag_start : RoiWindow :=
  default two_selected (leftMouseDown two_selected 50 50).

(** The session on [roi_wide] after a pointer-down at (60,10), on its top
    edge. *)
Definition resize_start : RoiWindow :=
  {| roiCoordinates := [roi_wide];
     newRoi := {| coordinates := ((60, 10), (0, 0)); height := -10; width := -60;
                  status := false |};
     relativeCoordinates := RelList [60; 0];
     saved := false; dragging := None;
     resizing := Some (0%nat, (0, 1, 0, 0));
     selection := [0%nat] |}.

(** The jobs of a batch, in the order the loops reach them. *)
Section batch_jobs.

Variable stem : string → string.
Variable path_join : string → string → string.
Variable output_folder : string.
Variable boleanFilter : Z.
Variable textFilter : string.

(** The jobs of one video whose first [i] ROIs are already handled. *)
Fixpoint video_jobs (video_path : string) (i : nat) (rois : list Roi) : list Job :=
  match rois with
  | [] => []
  | roi :: rest =>
      crop_job stem path_join output_folder boleanFilter textFilter
        video_path (S i) roi
      :: video_jobs video_path (S i) rest
  end.

Fixpoint batch_jobs (items : list (string * list Roi)) : list Job :=
  match items with
  | [] => []
  | (video_path, rois) :: rest => video_jobs video_path 0 rois ++ batch_jobs rest
  end.

End batch_jobs.

(** How many of the jobs the transcoder completes, and how many it fails. *)
Definition succeeded (ffmpeg_run : Job → bool) (jobs : list Job) : nat :=
  length (List.filter ffmpeg_run jobs).

Definition failed (ffmpeg_run : Job → bool) (jobs : list Job) : nat :=
  length (List.filter (λ j, negb (ffmpeg_run j)) jobs).

(** Every write to [status_var], in order: [None] for the reset to 0
    before the loops, [Some (n, total)] for the update after a job. *)
Definition status_sets (t : list Effect) : list (option (nat * nat)) :=
  omap (λ e, match e with
             | StatusReset => Some None
             | Progress n total => Some (Some (n, total))
             | _ => None
             end) t.

(** The progress updates [(1, total); ...; (n, total)] that follow [r]
    completed jobs. *)
Definition progress_from (r n total : nat) : list (nat * nat) :=
  (λ k, (k, total)) <$> seq (S r) n.

(** What a batch state has accumulated beyond an earlier one: the jobs
    submitted, and the completed count, progress updates and error
    messages that their outcomes produce; the status is written by those
    progress updates only. *)
Definition extends_by (ffmpeg_run : Job → bool) (total : nat) (st st' : LoopState)
    (jobs : list Job) : Prop :=
  transcoder_jobs (trace st') = transcoder_jobs (trace st) ++ jobs ∧
  rendered_video st' = (rendered_video st + succeeded ffmpeg_run jobs)%nat ∧
  progress_updates (trace st')
  = progress_updates (trace st)
    ++ progress_from (rendered_video st) (succeeded ffmpeg_run jobs) total ∧
  length (error_messages (trace st'))
  = (length (error_messages (trace st)) + failed ffmpeg_run jobs)%nat ∧
  status_sets (trace st')
  = status_sets (trace st)
    ++ (Some <$> progress_from (rendered_video st) (succeeded ffmpeg_run jobs) total).

(** A concrete world for the batch: paths are joined with a slash, the
    stem of a path is the path itself, every directory can be created,
    and the transcoder fails on the video [b.mp4] only. *)
Definition example_run : Outcome * LoopState :=
  crop_video (λ p, p) (λ a b, a +:+ "/" +:+ b) (λ _, true)
    (λ j, negb (bool_decide (job_input j = "b.mp4")))
    "out" 0 ""
    "a.mp4" [("a.mp4", [roi_square; roi_far]); ("b.mp4", [roi_wide])] [].

(** ** Further handlers of [RoiWindow] *)

(** [self.defaultCursor] *)
Definition defaultCursor : string := "crosshair".

(** One iteration of the loop of [RoiWindow.mouseMove]: the same chain of
    zones as in [leftMouseDown], each branch configuring a cursor and
    setting [hovering].  The state is the canvas cursor and the flag. *)
Definition mouseMove_body (x y : Z) (roi : Roi) (st : string * bool) : string * bool :=
  let '((x1, y1), (x2, y2)) := coordinates roi in
  if between (x1 - radius * 2) x (x1 + radius * 2)
     && between (y1 - radius * 2) y (y1 + radius * 2) then
    ("top_left_corner", true)
  else if between (x2 - radius * 2) x (x2 + radius * 2)
          && between (y1 - radius * 2) y (y1 + radius * 2) then
    ("top_right_corner", true)
  else if between (x1 - radius * 2) x (x1 + radius * 2)
          && between (y2 - radius * 2) y (y2 + radius * 2) then
    ("bottom_left_corner", true)
  else if between (x2 - radius * 2) x (x2 + radius * 2)
          && between (y2 - radius * 2) y (y2 + radius * 2) then
    ("bottom_right_corner", true)
  else if between (x1 - radius) x (x2 + radius)
          && between (y1 - radius) y (y1 + radius) then
    ("top_side", true)
  else if between (x1 - radius) x (x2 + radius)
          && between (y2 - radius) y (y2 + radius) then
    ("bottom_side", true)
  else if between (x1 - radius) x (x1 + radius)
          && between (y1 - radius) y (y2 + radius) then
    ("left_side", true)
  else if between (x2 - radius) x (x2 + radius)
          && between (y1 - radius) y (y2 + radius) then
    ("right_side", true)
  else if between x1 x x2 && between y1 y y2 then
    ("fleur", true)
  else st.

Fixpoint mouseMove_loop (x y : Z) (rois : list Roi) (st : string * bool)
    : string * bool :=
  match rois with
  | [] => st
  | roi :: rest => mouseMove_loop x y rest (mouseMove_body x y roi st)
  end.

(** The cursor of the canvas after [RoiWindow.mouseMove(x, y)], [cursor]
    being the one configured before. *)
Definition mouseMove_cursor (cursor : string) (rois : list Roi) (x y : Z) : string :=
  let '(c, hovering) := mouseMove_loop x y rois (cursor, false) in
  if hovering then c else defaultCursor.

(** The cursor that belongs to a hit. *)
Definition cursor_of_hit (h : Hit) : option string :=
  match h with
  | HandleHit (1, 1, 0, 0) _ _ => Some "top_left_corner"
  | HandleHit (0, 1, 1, 0) _ _ => Some "top_right_corner"
  | HandleHit (1, 0, 0, 1) _ _ => Some "bottom_left_corner"
  | HandleHit (0, 0, 1, 1) _ _ => Some "bottom_right_corner"
  | HandleHit (0, 1, 0, 0) _ _ => Some "top_side"
  | HandleHit (0, 0, 0, 1) _ _ => Some "bottom_side"
  | HandleHit (1, 0, 0, 0) _ _ => Some "left_side"
  | HandleHit (0, 0, 1, 0) _ _ => Some "right_side"
  | HandleHit _ _ _ => None
  | BodyHit => Some "fleur"
  | NoHit => None
  end.

(** The last ROI of the collection that the point hits at all, with its
    hit. *)
Fixpoint last_hit (x y : Z) (rois : list Roi) : option Hit :=
  match rois with
  | [] => None
  | roi :: rest =>
      match last_hit x y rest with
      | Some h => Some h
      | None =>
          match classify x y roi with
          | NoHit => None
          | h => Some h
          end
      end
  end.

(** What [RoiWindow.drawAllRois] and [RoiWindow.drawRoi] put on the frame
    for one ROI: the white label box from corner 0 to corner 0 + 20, the
    label text at corner 0 + (2, 20), and the outline in the colour
    [rgb]. *)
Record Drawing : Type := mkDrawing {
  draw_box : point * point;
  draw_text : nat * point;
  draw_outline : point * point;
  draw_rgb : Z * Z * Z
}.

(** [RoiWindow.drawRoi(roi, i, rgb)] *)
Definition drawRoi (roi : Roi) (i : nat) (rgb : Z * Z * Z) : Drawing :=
  let '((x0, y0), c1) := coordinates roi in
  {| draw_box := ((x0, y0), (x0 + 20, y0 + 20));
     draw_text := (i, (x0 + 2, y0 + 20));
     draw_outline := ((x0, y0), c1);
     draw_rgb := rgb |}.

(** The loop of [drawAllRois]; [params] is the list of [{"key", "rgb"}]
    entries, [idx] the index [enumerate] has reached. *)
Fixpoint drawAllRois_loop (params : list (nat * (Z * Z * Z))) (idx : nat)
    (rois : list Roi) : list Drawing :=
  match rois with
  | [] => []
  | roi :: rest =>
      let result := snd <$> List.filter (λ item, bool_decide (fst item = idx)) params in
      (match result with
       | rgb :: _ => drawRoi roi (idx + 1) rgb
       | [] => drawRoi roi (idx + 1) (255, 0, 0)
       end) :: drawAllRois_loop params (S idx) rest
  end.

(** [RoiWindow.drawAllRois()] with [params=None]: one entry per selected
    index is appended to the empty [params]. *)
Definition drawAllRois (w : RoiWindow) : list Drawing :=
  let params := (λ key, (key, (0, 255, 0))) <$> selection w in
  drawAllRois_loop params 0 (roiCoordinates w).

(** [RoiWindow.close]: [true] when the window is destroyed; [confirm] is
    the answer to "The ROIs were not saved. Do you want to quit anyways?",
    asked only when [saved] is false. *)
Definition close (w : RoiWindow) (confirm : bool) : bool :=
  if saved w then true else confirm.

(** The imports of a run bring only ROIs whose width and height agree
    with their corners. *)
Definition imports_consistent (evs : list SessionEvent) : Prop :=
  Forall (λ ev, match ev with
                | EvImport _ (Some l) _ => Forall dimensions_current l
                | _ => True
                end) evs.

(** ** Further parts of [VideoCropperGUI] *)

(** [VideoCropperGUI.export_rois]: the rows handed to [csv.writer], one
    per ROI, [[vid] + roi.getCoordinates(0) + roi.getCoordinates(1)]. *)
Definition csv_row : Type := string * Z * Z * Z * Z.

Definition export_rows_of (vid : string) (rois : list Roi) : list csv_row :=
  (λ roi, let '((x1, y1), (x2, y2)) := coordinates roi in (vid, x1, y1, x2, y2))
    <$> rois.

Fixpoint export_rois (roi_dict : list (string * list Roi)) : list csv_row :=
  match roi_dict with
  | [] => []
  | (vid, rois) :: rest => export_rows_of vid rois ++ export_rois rest
  end.

(** The filter controls: the value of [boleanFilter] and the content of
    the text widget [textFilter] (without the newline that Tk keeps at the
    end of a text widget). *)
Record FilterControls : Type := mkFilterControls {
  filter_flag : Z;
  filter_text : string
}.

(** [self.textFilter.get("1.0", tk.END)]: the content and Tk's final
    newline. *)
Definition text_get_all (c : FilterControls) : string :=
  filter_text c +:+ "
".

(** [VideoCropperGUI.toggleFilter(state)] *)
Definition toggleFilter (c : FilterControls) (state : option Z) : FilterControls :=
  match state with
  | Some s => mkFilterControls s (filter_text c)
  | None => mkFilterControls (1 - filter_flag c) (filter_text c)
  end.

(** Python's [needle in haystack] on strings. *)
Fixpoint contains (needle haystack : string) : bool :=
  String.prefix needle haystack
  || match haystack with
     | EmptyString => false
     | String _ rest => contains needle rest
     end.

(** [VideoCropperGUI.filterAdd(filterString)]: [toggleFilter(1)] makes the
    widget editable, so the insertion at [tk.END] takes place; it lands
    before the final newline. *)
Definition filterAdd (c : FilterControls) (filterString : string) : FilterControls :=
  let c1 := toggleFilter c (Some 1) in
  if contains filterString (text_get_all c1) then c1
  else mkFilterControls (filter_flag c1) (filter_text c1 +:+ ", " +:+ filterString).

(** The dictionary [roi_dict] keeps its keys in insertion order:
    [d[key] = value] overwrites in place or appends. *)
Fixpoint dict_set (d : list (string * list Roi)) (key : string) (value : list Roi)
    : list (string * list Roi) :=
  match d with
  | [] => [(key, value)]
  | (k, v) :: rest =>
      if bool_decide (k = key) then (k, value) :: rest
      else (k, v) :: dict_set rest key value
  end.

Fixpoint dict_get (d : list (string * list Roi)) (key : string) : option (list Roi) :=
  match d with
  | [] => None
  | (k, v) :: rest => if bool_decide (k = key) then Some v else dict_get rest key
  end.

(** [VideoCropperGUI.select_video]: [file_path] is the answer of the file
    dialog, [valid] the verdict of [validate_video_path] on it.  Only a
    non-empty, valid path reaches the assignment [self.roi_dict[file_path] = []]. *)
Definition select_video (roi_dict : list (string * list Roi)) (file_path : string)
    (valid : bool) : list (string * list Roi) :=
  if bool_decide (file_path = "") then roi_dict
  else if negb valid then roi_dict
  else dict_set roi_dict file_path [].


(** The body test of [rightMouseDown] and [shiftLeftMouseDown]:
    [x1 <= x <= x2 and y1 <= y <= y2]. *)
Definition in_box (x y : Z) (roi : Roi) : bool :=
  let '((x1, y1), (x2, y2)) := coordinates roi in
  between x1 x x2 && between y1 y y2.

(** The events that can bring a ROI into the collection as it is, without
    passing through [setRoi] or a sorting [setCoordinates]: the release of
    button 1 (without shift) while neither resizing nor dragging, which
    commits the draft, and an import. *)
Definition commits_draft (w : RoiWindow) (ev : SessionEvent) : bool :=
  match ev with
  | EvMouse e =>
      match ev_type e with
      | ButtonRelease =>
          (ev_num e =? 1) && (Z.land (ev_state e) 1 =? 0)
          && bool_decide (resizing w = None) && bool_decide (dragging w = None)
      | _ => false
      end
  | _ => false
  end.

Definition is_import (ev : SessionEvent) : bool :=
  match ev with
  | EvImport _ _ _ => true
  | _ => false
  end.

(** More readings of a trace: the directories created, and the captures
    opened ([true]) and released ([false]). *)
Definition made_dirs (t : list Effect) : list string :=
  omap (λ e, match e with MakeDirs p => Some p | _ => None end) t.

Definition captures (t : list Effect) : list (bool * string) :=
  omap (λ e, match e with
             | OpenCapture v => Some (true, v)
             | ReleaseCapture v => Some (false, v)
             | _ => None
             end) t.

(** The first video of the dictionary that has ROIs. *)
Fixpoint first_with_rois (roi_dict : list (string * list Roi)) : option string :=
  match roi_dict with
  | [] => None
  | (video_path, []) :: rest => first_with_rois rest
  | (video_path, _ :: _) :: _ => Some video_path
  end.

(** The videos of the dictionary that have ROIs, in order. *)
Fixpoint videos_with_rois (roi_dict : list (string * list Roi)) : list string :=
  match roi_dict with
  | [] => []
  | (video_path, []) :: rest => videos_with_rois rest
  | (video_path, _ :: _) :: rest => video_path :: videos_with_rois rest
  end.

(** What an event does to the flag [saved] in [mouseEvent] and
    [saveRois]: a press or a release of button 1 without shift clears it,
    a save sets it. *)
Definition marks_dirty (ev : SessionEvent) : bool :=
  match ev with
  | EvMouse e =>
      match ev_type e with
      | ButtonPress | ButtonRelease => (ev_num e =? 1) && (Z.land (ev_state e) 1 =? 0)
      | _ => false
      end
  | _ => false
  end.

Definition is_save (ev : SessionEvent) : bool :=
  match ev with
  | EvSave => true
  | _ => false
  end.

(** The events of a run after the last save. *)
Fixpoint since_last_save (evs : list SessionEvent) : list SessionEvent :=
  match evs with
  | [] => []
  | ev :: rest =>
      if existsb is_save rest then since_last_save rest else
      if is_save ev then rest else ev :: rest
  end.

(** * Properties *)

(** ** The rectangle *)

Lemma sort_then_dimensions (r : Roi) :
  rectangle_invariant (Roi.calculateDimensions (Roi.sortCoordinates r)).
Proof.
  destruct r as [[[x0 y0] [x1 y1]] h w st].
  unfold rectangle_invariant, normalized, dimensions_current; simpl.
  lia.
Qed.

Lemma dimensions_after_calculate (r : Roi) :
  dimensions_current (Roi.calculateDimensions r).
Proof.
  destruct r as [[[x0 y0] [x1 y1]] h w st].
  unfold dimensions_current; simpl. lia.
Qed.

(** C1. After [setRoi(a, b)], and after [setCoordinates(i, x, y)] with
    [sort=True] on either corner index, the stored corners satisfy
    corners[0].x <= corners[1].x and corners[0].y <= corners[1].y, and
    width and height equal the corner differences and are non-negative. *)
Theorem setRoi_and_sorted_setCoordinates_normalize
    (r : Roi) (a b : point) (x y : Z) :
  (let r' := Roi.setRoi r a b in
   fst (fst (coordinates r')) ≤ fst (snd (coordinates r')) ∧
   snd (fst (coordinates r')) ≤ snd (snd (coordinates r')) ∧
   width r' = fst (snd (coordinates r')) - fst (fst (coordinates r')) ∧
   height r' = snd (snd (coordinates r')) - snd (fst (coordinates r')) ∧
   0 ≤ width r' ∧ 0 ≤ height r') ∧
  (∃ r', Roi.setCoordinates r 0 x y true = Some r' ∧ rectangle_invariant r') ∧
  (∃ r', Roi.setCoordinates r 1 x y true = Some r' ∧ rectangle_invariant r').
Proof.
  split; [|split].
  - destruct a as [ax ay], b as [bx by_]. simpl. lia.
  - eexists; split; [reflexivity|]. apply sort_then_dimensions.
  - eexists; split; [reflexivity|]. apply sort_then_dimensions.
Qed.

(** C10. [reset()] zeroes both corners and clears the draft flag but keeps
    the derived width and height of before the reset, so the getters
    report the old values; the next coordinate mutation ([setRoi], or
    [setCoordinates] on either corner) recomputes them from the corners. *)
Theorem reset_keeps_stale_dimensions (r : Roi) :
  coordinates (Roi.reset r) = ((0, 0), (0, 0)) ∧
  Roi.getStatus (Roi.reset r) = false ∧
  Roi.getWidth (Roi.reset r) = Roi.getWidth r ∧
  Roi.getHeight (Roi.reset r) = Roi.getHeight r ∧
  (∀ a b, dimensions_current (Roi.setRoi (Roi.reset r) a b)) ∧
  (∀ x y sort, ∃ r',
     Roi.setCoordinates (Roi.reset r) 0 x y sort = Some r' ∧ dimensions_current r') ∧
  (∀ x y sort, ∃ r',
     Roi.setCoordinates (Roi.reset r) 1 x y sort = Some r' ∧ dimensions_current r').
Proof.
  repeat split.
  - intros a b. apply dimensions_after_calculate.
  - intros x y sort. eexists; split; [reflexivity|]. apply dimensions_after_calculate.
  - intros x y sort. eexists; split; [reflexivity|]. apply dimensions_after_calculate.
Qed.

(** A ROI 40 wide and 50 high still reports 40 and 50 after [reset()]. *)
Example reset_reports_old_size :
  let r := {| coordinates := ((10, 10), (50, 60)); height := 50; width := 40;
              status := true |} in
  Roi.getWidth (Roi.reset r) = 40 ∧ Roi.getHeight (Roi.reset r) = 50
  ∧ coordinates (Roi.reset r) = ((0, 0), (0, 0)).
Proof. repeat split. Qed.

(** ** Committing a draft *)

(** What a pointer-up does while neither dragging nor resizing: corner 1
    of the draft is stored with [sort=False], a copy of the draft is
    appended as it is, then the draft is reset and the selection cleared. *)
Lemma leftMouseUp_drafting (w : RoiWindow) (x y : Z) :
  resizing w = None → dragging w = None →
  leftMouseUp w x y =
    Some {| roiCoordinates :=
              roiCoordinates w
              ++ [ {| coordinates := (fst (coordinates (newRoi w)), (x, y));
                      height := y - snd (fst (coordinates (newRoi w)));
                      width := x - fst (fst (coordinates (newRoi w)));
                      status := status (newRoi w) |} ];
            newRoi := {| coordinates := ((0, 0), (0, 0));
                         height := y - snd (fst (coordinates (newRoi w)));
                         width := x - fst (fst (coordinates (newRoi w)));
                         status := false |};
            relativeCoordinates := relativeCoordinates w;
            saved := saved w;
            dragging := None;
            resizing := None;
            selection := [] |}.
Proof.
  intros Hr Hd. unfold leftMouseUp. rewrite Hr, Hd.
  destruct w as [rois [[[x0 y0] [x1 y1]] h wd st] rel sv dr rs sel]; simpl in *.
  subst. reflexivity.
Qed.

(** The scenario of the specification, drawn from top left to bottom
    right: one ROI with corners [[10,10],[50,60]], width 40, height 50. *)
Example draft_top_left_to_bottom_right :
  session_run (RoiWindow_init []) [down 10 10; move 50 60; up 50 60] =
    Some {| roiCoordinates :=
              [ {| coordinates := ((10, 10), (50, 60)); height := 50; width := 40;
                   status := true |} ];
            newRoi := {| coordinates := ((0, 0), (0, 0)); height := 50; width := 40;
                         status := false |};
            relativeCoordinates := RelList [];
            saved := false; dragging := None; resizing := None; selection := [] |}.
Proof. reflexivity. Qed.

(** C2. A draft drawn from bottom right to top left, down at (50,60), move
    to (10,10), up at (10,10) on an empty collection: the ROI that is
    appended has corners [[50,60],[10,10]], width -40 and height -50, and
    still carries the draft flag; the draft is reset, the selection is
    empty and no mode is active. *)
Theorem draft_commit_appends_unsorted_flagged_roi :
  session_run (RoiWindow_init []) [down 50 60; move 10 10; up 10 10] =
    Some {| roiCoordinates :=
              [ {| coordinates := ((50, 60), (10, 10)); height := -50; width := -40;
                   status := true |} ];
            newRoi := {| coordinates := ((0, 0), (0, 0)); height := -50; width := -40;
                         status := false |};
            relativeCoordinates := RelList [];
            saved := false; dragging := None; resizing := None; selection := [] |}.
Proof. reflexivity. Qed.

(** ** Interaction modes *)

(** C4. On the collection [roi_square; roi_far] a pointer-down at (50,50)
    lies in the body of ROI 0 and in the top-left handle of ROI 1: the
    loop sets both [dragging] and [resizing], two modes are active at
    once.  The pointer-up that follows clears [resizing] only, and the
    stale [dragging] makes a later press on empty canvas at (500,500)
    followed by a move to (510,510) drag ROI 0 to [[10,10],[110,110]]. *)
Theorem down_sets_dragging_and_resizing_together :
  (∃ w', session_run (RoiWindow_init [roi_square; roi_far]) [down 50 50] = Some w' ∧
         dragging w' = Some 0%nat ∧ resizing w' = Some (1%nat, (1, 1, 0, 0)) ∧
         active_modes w' = 2%nat) ∧
  (∃ w', session_run (RoiWindow_init [roi_square; roi_far]) [down 50 50; up 50 50]
         = Some w' ∧
         dragging w' = Some 0%nat ∧ resizing w' = None) ∧
  (∃ w', session_run (RoiWindow_init [roi_square; roi_far])
           [down 50 50; up 50 50; down 500 500; move 510 510] = Some w' ∧
         classify 500 500 roi_square = NoHit ∧ classify 500 500 roi_far = NoHit ∧
         roiCoordinates w' =
           [ {| coordinates := ((10, 10), (110, 110)); height := 100; width := 100;
                status := false |}; roi_far ]).
Proof.
  split; [|split].
  - eexists; split; [reflexivity|]. repeat split.
  - eexists; split; [reflexivity|]. repeat split.
  - destruct (session_run (RoiWindow_init [roi_square; roi_far])
                [down 50 50; up 50 50; down 500 500; move 510 510]) as [w'|] eqn:E;
      vm_compute in E; [|discriminate E].
    injection E as <-. eexists; split; [reflexivity|]. repeat split.
Qed.

(** ** Import *)

(** C9 as stated fails: an entry of width -40 and height -50 is imported
    into an empty collection. *)
Lemma import_accepts_negative_entry :
  ¬ import_rejects_negative_entries (RoiWindow_init []) [roi_backwards] false.
Proof.
  unfold import_rejects_negative_entries. intros H.
  assert (Hneg : negative_entry [roi_backwards]).
  { exists roi_backwards. split; [apply list_elem_of_here|]. left. simpl. lia. }
  specialize (H Hneg). discriminate H.
Qed.

(** C9 (amended). The import validates nothing: whatever the imported
    entries are, they overwrite the collection when it is empty or when
    replacing is chosen and are appended after the existing ones
    otherwise; the other fields of the session are untouched.  The
    collection is left unchanged only when no file is chosen or when
    reading the file raises. *)
Theorem import_merge_overwrites_or_appends
    (w : RoiWindow) (l : list Roi) (option : bool) :
  importRoisFile w true (Some l) option =
    set_roiCoordinates w
      (if option || bool_decide (roiCoordinates w = []) then l
       else roiCoordinates w ++ l) ∧
  importRoisFile w true None option = w ∧
  importRoisFile w false (Some l) option = w.
Proof.
  repeat split. unfold importRoisFile.
  destruct (roiCoordinates w) as [|r rs] eqn:E; simpl.
  - rewrite orb_true_r. reflexivity.
  - rewrite orb_false_r. destruct option; reflexivity.
Qed.

(** ** Hit classification *)

(** The [if]/[elif] chain of the source is the first match over the zones
    in the specification's precedence order. *)
Lemma leftMouseDown_body_classify (x y : Z) (idx : nat) (roi : Roi) (w : RoiWindow) :
  leftMouseDown_body x y idx roi w = act_on_hit idx (classify x y roi) w.
Proof.
  unfold leftMouseDown_body, classify, zones_by_precedence.
  destruct (coordinates roi) as [[x1 y1] [x2 y2]].
  change (radius * 2) with 20. change radius with 10.
  unfold first_match, in_zone; simpl.
  repeat (match goal with
          | |- context [if ?c then _ else _] => destruct c; [reflexivity|]
          end).
  reflexivity.
Qed.

Lemma leftMouseDown_loop_spec (x y : Z) (rois : list Roi) :
  ∀ (idx : nat) (w : RoiWindow),
    leftMouseDown_loop x y idx rois w =
      let w1 := match last_handle x y idx rois with
                | Some (i, m, rx, ry) => grab w i m rx ry
                | None => w
                end in
      match last_body x y idx rois with
      | Some i => set_dragging w1 (Some i)
      | None => w1
      end.
Proof.
  induction rois as [|roi rest IH]; intros idx w; [reflexivity|].
  simpl leftMouseDown_loop. rewrite IH, leftMouseDown_body_classify.
  simpl last_handle. simpl last_body.
  destruct (last_handle x y (S idx) rest) as [[[[i m] rx] ry]|];
    destruct (last_body x y (S idx) rest) as [b|];
    destruct (classify x y roi) as [m' rx' ry'| |];
    destruct w; reflexivity.
Qed.

Lemma last_handle_none (x y : Z) (rois : list Roi) :
  ∀ (idx : nat),
    (∀ (j : nat) (roi_j : Roi),
       rois !! j = Some roi_j → is_handle (classify x y roi_j) = false) →
    last_handle x y idx rois = None.
Proof.
  induction rois as [|r rest IH]; intros idx Hall; [reflexivity|].
  simpl. rewrite IH.
  - specialize (Hall 0%nat r eq_refl).
    destruct (classify x y r); [discriminate|reflexivity|reflexivity].
  - intros j roi_j Hl. apply (Hall (S j) roi_j). exact Hl.
Qed.

Lemma last_handle_found (x y : Z) (rois : list Roi) :
  ∀ (idx k : nat) (roi : Roi) (m : mask) (rx ry : Z),
    rois !! k = Some roi →
    classify x y roi = HandleHit m rx ry →
    (∀ (j : nat) (roi_j : Roi),
       (k < j)%nat → rois !! j = Some roi_j → is_handle (classify x y roi_j) = false) →
    last_handle x y idx rois = Some ((idx + k)%nat, m, rx, ry).
Proof.
  induction rois as [|r rest IH]; intros idx k roi m rx ry Hk Hc Hlast; [discriminate|].
  simpl. destruct k as [|k]; simpl in Hk.
  - injection Hk as ->.
    rewrite last_handle_none, Hc.
    + rewrite Nat.add_0_r. reflexivity.
    + intros j roi_j Hl. apply (Hlast (S j) roi_j); [lia|exact Hl].
  - rewrite (IH (S idx) k roi m rx ry Hk Hc).
    + do 4 f_equal. lia.
    + intros j roi_j Hj Hl. apply (Hlast (S j) roi_j); [lia|exact Hl].
Qed.

Lemma last_body_none (x y : Z) (rois : list Roi) :
  ∀ (idx : nat),
    (∀ (j : nat) (roi_j : Roi),
       rois !! j = Some roi_j → classify x y roi_j ≠ BodyHit) →
    last_body x y idx rois = None.
Proof.
  induction rois as [|r rest IH]; intros idx Hall; [reflexivity|].
  simpl. rewrite IH.
  - specialize (Hall 0%nat r eq_refl).
    destruct (classify x y r); [reflexivity|congruence|reflexivity].
  - intros j roi_j Hl. apply (Hall (S j) roi_j). exact Hl.
Qed.

Lemma last_body_found (x y : Z) (rois : list Roi) :
  ∀ (idx k : nat) (roi : Roi),
    rois !! k = Some roi →
    classify x y roi = BodyHit →
    (∀ (j : nat) (roi_j : Roi),
       (k < j)%nat → rois !! j = Some roi_j → classify x y roi_j ≠ BodyHit) →
    last_body x y idx rois = Some (idx + k)%nat.
Proof.
  induction rois as [|r rest IH]; intros idx k roi Hk Hc Hlast; [discriminate|].
  simpl. destruct k as [|k]; simpl in Hk.
  - injection Hk as ->.
    rewrite last_body_none, Hc.
    + rewrite Nat.add_0_r. reflexivity.
    + intros j roi_j Hl. apply (Hlast (S j) roi_j); [lia|exact Hl].
  - rewrite (IH (S idx) k roi Hk Hc).
    + f_equal. lia.
    + intros j roi_j Hj Hl. apply (Hlast (S j) roi_j); [lia|exact Hl].
Qed.

(** The offsets recorded on a body hit: every selected index is in range
    and maps to its ROI's top-left corner minus the pointer. *)
Lemma record_offsets_spec (x y : Z) (rois : list Roi) (sel : list nat) :
  ∀ (d0 d : gmap nat point),
    record_offsets x y rois sel d0 = Some d →
    ∀ idx : nat,
      (idx ∈ sel →
       ∃ roi, rois !! idx = Some roi ∧
              d !! idx = Some (fst (fst (coordinates roi)) - x,
                               snd (fst (coordinates roi)) - y)) ∧
      (idx ∉ sel → d !! idx = d0 !! idx).
Proof.
  induction sel as [|i rest IH]; intros d0 d Hrec idx.
  - injection Hrec as <-. split; [intros H; inversion H|reflexivity].
  - simpl in Hrec. destruct (rois !! i) as [roi|] eqn:Hi; [|discriminate].
    simpl in Hrec. destruct (coordinates roi) as [[x1 y1] c1] eqn:Hc.
    specialize (IH _ _ Hrec idx) as [IHin IHout].
    split.
    + intros Hin. destruct (decide (idx ∈ rest)) as [Hr|Hr]; [auto|].
      apply elem_of_cons in Hin as [->|Hin]; [|contradiction].
      exists roi. split; [exact Hi|].
      rewrite Hc. etrans; [exact (IHout Hr)|]. apply lookup_insert_eq.
    + intros Hnot. apply not_elem_of_cons in Hnot as [Hne Hnr].
      etrans; [exact (IHout Hnr)|]. apply lookup_insert_ne. congruence.
Qed.

Lemma record_offsets_total (x y : Z) (rois : list Roi) (sel : list nat) :
  ∀ d0 : gmap nat point,
    (∀ k : nat, k ∈ sel → (k < length rois)%nat) →
    ∃ d, record_offsets x y rois sel d0 = Some d.
Proof.
  induction sel as [|i rest IH]; intros d0 Hsel; [eexists; reflexivity|].
  simpl. destruct (lookup_lt_is_Some_2 rois i) as [roi Hi].
  { apply Hsel. apply list_elem_of_here. }
  rewrite Hi. simpl. destruct (coordinates roi) as [[x1 y1] c1].
  apply IH. intros k Hk. apply Hsel. apply list_elem_of_further. exact Hk.
Qed.

Lemma last_body_in_range (x y : Z) (rois : list Roi) :
  ∀ (idx i : nat),
    last_body x y idx rois = Some i → (idx ≤ i < idx + length rois)%nat.
Proof.
  induction rois as [|r rest IH]; intros idx i H; [discriminate|].
  simpl in H. destruct (last_body x y (S idx) rest) as [b|] eqn:E.
  - injection H as ->. apply IH in E. simpl. lia.
  - destruct (classify x y r); try discriminate.
    injection H as ->. simpl. lia.
Qed.

(** The loop leaves the collection, the selection, the draft and the saved
    flag alone. *)
Lemma leftMouseDown_loop_frame (x y : Z) (rois : list Roi) (idx : nat) (w : RoiWindow) :
  let w' := leftMouseDown_loop x y idx rois w in
  roiCoordinates w' = roiCoordinates w ∧ selection w' = selection w ∧
  newRoi w' = newRoi w ∧ saved w' = saved w.
Proof.
  rewrite leftMouseDown_loop_spec.
  destruct (last_handle x y idx rois) as [[[[i m] rx] ry]|];
    destruct (last_body x y idx rois) as [b|]; destruct w; repeat split.
Qed.

(** A pointer-down in a session where no mode is active. *)
Lemma leftMouseDown_idle (w : RoiWindow) (x y : Z) :
  resizing w = None → dragging w = None →
  (∀ k : nat, k ∈ selection w → (k < length (roiCoordinates w))%nat) →
  ∃ w', leftMouseDown w x y = Some w' ∧
    match last_handle x y 0 (roiCoordinates w) with
    | Some (i, m, rx, ry) =>
        resizing w' = Some (i, m) ∧ relativeCoordinates w' = RelList [rx; ry] ∧
        selection w' = [i]
    | None =>
        resizing w' = None ∧
        match last_body x y 0 (roiCoordinates w) with
        | Some i => dragging w' = Some i ∧ i ∈ selection w'
        | None => dragging w' = None ∧ selection w' = []
        end
    end.
Proof.
  intros Hr Hd Hsel. unfold leftMouseDown.
  rewrite leftMouseDown_loop_spec.
  destruct (last_handle x y 0 (roiCoordinates w)) as [[[[i m] rx] ry]|].
  - destruct (last_body x y 0 (roiCoordinates w)) as [b|];
      eexists; (split; [reflexivity|]); repeat split.
  - destruct (last_body x y 0 (roiCoordinates w)) as [b|] eqn:Hb; simpl.
    + rewrite Hr.
      set (sel := if decide (b ∈ selection w) then selection w else [b]).
      assert (Hin : b ∈ sel).
      { unfold sel. destruct (decide (b ∈ selection w)); [assumption|].
        apply list_elem_of_here. }
      assert (Hrange : ∀ k : nat, k ∈ sel → (k < length (roiCoordinates w))%nat).
      { unfold sel. destruct (decide (b ∈ selection w)); [exact Hsel|].
        intros k Hk. apply list_elem_of_singleton in Hk as ->.
        apply last_body_in_range in Hb. lia. }
      destruct (record_offsets_total x y (roiCoordinates w) sel ∅ Hrange) as [d Hrec].
      exists (set_relativeCoordinates
                (set_selection
                   (set_newRoi (set_dragging w (Some b))
                      (Roi.calculateDimensions
                         {| coordinates := ((x, y), snd (coordinates (newRoi w)));
                            height := height (newRoi w); width := width (newRoi w);
                            status := status (newRoi w) |}))
                   sel)
                (RelDict d)).
      split; [|repeat split; [exact Hr|exact Hin]].
      unfold sel in *. destruct (decide (b ∈ selection w)); simpl; simpl in Hrec;
        rewrite Hrec; simpl; destruct w; reflexivity.
    + rewrite Hr, Hd. eexists; split; [reflexivity|]. repeat split; assumption.
Qed.




(** ** Dragging *)

Lemma setRoi_placed (x y : Z) (off : point) (roi : Roi) :
  0 ≤ width roi → 0 ≤ height roi →
  Roi.setRoi roi (x + fst off, y + snd off)
    (Roi.getWidth roi + x + fst off, Roi.getHeight roi + y + snd off)
  = placed x y off roi.
Proof.
  intros Hw Hh. destruct off as [ox oy].
  unfold Roi.setRoi, placed, Roi.getWidth, Roi.getHeight,
    Roi.calculateDimensions, Roi.sortCoordinates.
  simpl. f_equal.
  - f_equal; f_equal; lia.
  - lia.
  - lia.
Qed.

Lemma placed_same_size (x y : Z) (off : point) (r r' : Roi) :
  width r = width r' → height r = height r' → status r = status r' →
  placed x y off r = placed x y off r'.
Proof. intros Hw Hh Hs. unfold placed. rewrite Hw, Hh, Hs. reflexivity. Qed.

(** One pass of the dragging loop over a selection whose members have
    non-negative stored sizes. *)
Lemma drag_selection_spec (x y : Z) (d : gmap nat point) (sel : list nat) :
  ∀ rois : list Roi,
    (∀ idx : nat, idx ∈ sel →
       ∃ roi off, rois !! idx = Some roi ∧ d !! idx = Some off ∧
                  0 ≤ width roi ∧ 0 ≤ height roi) →
    ∃ rois', drag_selection x y (RelDict d) sel rois = Some rois' ∧
      (∀ (idx : nat) (roi : Roi) (off : point),
         idx ∈ sel → rois !! idx = Some roi → d !! idx = Some off →
         rois' !! idx = Some (placed x y off roi)) ∧
      (∀ idx : nat, idx ∉ sel → rois' !! idx = rois !! idx).
Proof.
  induction sel as [|i rest IH]; intros rois Hsel.
  - exists rois. split; [reflexivity|]. split; [|reflexivity].
    intros idx roi off Hin. inversion Hin.
  - destruct (Hsel i (list_elem_of_here _ _)) as (roi_i & off_i & Hi & Hoff & Hw & Hh).
    simpl. rewrite Hi. simpl. rewrite Hoff. simpl.
    rewrite (setRoi_placed x y off_i roi_i Hw Hh).
    assert (Hlt : (i < length rois)%nat) by (eapply lookup_lt_Some; exact Hi).
    destruct (IH (<[i := placed x y off_i roi_i]> rois)) as (rois' & Hrun & Hin' & Hout').
    { intros idx Hidx.
      destruct (Hsel idx (list_elem_of_further _ _ _ Hidx))
        as (roi & off & Hl & Ho & Hw' & Hh').
      destruct (decide (idx = i)) as [->|Hne].
      - exists (placed x y off_i roi_i), off_i.
        rewrite list_lookup_insert_eq by exact Hlt. repeat split; assumption.
      - exists roi, off. rewrite list_lookup_insert_ne by congruence.
        repeat split; assumption. }
    exists rois'. split; [exact Hrun|]. split.
    + intros idx roi off Hin Hl Ho.
      destruct (decide (idx ∈ rest)) as [Hr|Hr].
      * destruct (decide (idx = i)) as [->|Hne].
        -- assert (roi = roi_i) by congruence. assert (off = off_i) by congruence.
           subst. rewrite (Hin' i (placed x y off_i roi_i) off_i Hr).
           ++ reflexivity.
           ++ apply list_lookup_insert_eq. exact Hlt.
           ++ exact Hoff.
        -- apply (Hin' idx roi off Hr); [|exact Ho].
           rewrite list_lookup_insert_ne by congruence. exact Hl.
      * apply elem_of_cons in Hin as [->|Hin]; [|contradiction].
        assert (roi = roi_i) by congruence. assert (off = off_i) by congruence.
        subst. rewrite (Hout' i Hr). apply list_lookup_insert_eq. exact Hlt.
    + intros idx Hnot. apply not_elem_of_cons in Hnot as [Hne Hnr].
      rewrite (Hout' idx Hnr). apply list_lookup_insert_ne. congruence.
Qed.

(** What a pointer-down that ends in the dragging mode has recorded. *)
Lemma leftMouseDown_dragging_inv (w w1 : RoiWindow) (x y : Z) (d : nat) :
  leftMouseDown w x y = Some w1 →
  resizing w1 = None → dragging w1 = Some d →
  roiCoordinates w1 = roiCoordinates w ∧
  ∃ rel, relativeCoordinates w1 = RelDict rel ∧
    ∀ idx : nat, idx ∈ selection w1 →
      ∃ roi, roiCoordinates w1 !! idx = Some roi ∧
             rel !! idx = Some (fst (fst (coordinates roi)) - x,
                                snd (fst (coordinates roi)) - y).
Proof.
  unfold leftMouseDown. intros Hdown Hr Hd.
  pose proof (leftMouseDown_loop_frame x y (roiCoordinates w) 0 w) as Hframe.
  simpl in Hframe. destruct Hframe as (Hrois & Hsel & _ & _).
  set (w1' := leftMouseDown_loop x y 0 (roiCoordinates w) w) in *.
  simpl in Hdown.
  destruct (resizing w1') as [r|] eqn:Hres.
  { injection Hdown as <-. simpl in Hr. congruence. }
  destruct (dragging w1') as [d'|] eqn:Hdrag.
  2:{ injection Hdown as <-. simpl in Hd. congruence. }
  match type of Hdown with
  | context [record_offsets ?a ?b ?c ?s ?e] =>
      destruct (record_offsets a b c s e) as [rel|] eqn:Hrec; [|discriminate]
  end.
  simpl in Hdown. injection Hdown as <-. simpl.
  split.
  - destruct (decide (d' ∈ selection w1')); exact Hrois.
  - exists rel. split; [reflexivity|]. intros idx Hidx.
    apply (record_offsets_spec _ _ _ _ _ _ Hrec idx). exact Hidx.
Qed.

Lemma session_step_move (w : RoiWindow) (x y : Z) :
  session_step w (move x y) = leftMouseMove w x y.
Proof. reflexivity. Qed.

Lemma session_run_app (evs1 evs2 : list SessionEvent) :
  ∀ w : RoiWindow,
    session_run w (evs1 ++ evs2) = w' ← session_run w evs1; session_run w' evs2.
Proof.
  induction evs1 as [|ev rest IH]; intros w; [reflexivity|].
  simpl. destruct (session_step w ev) as [w1|]; simpl; [apply IH|reflexivity].
Qed.

(** One pointer-move in the course of a drag. *)
Lemma drag_step (d : nat) (rel : gmap nat point) (w0 w : RoiWindow) (x y : Z) :
  drag_state d rel w0 w →
  ∃ w', leftMouseMove w x y = Some w' ∧ drag_state d rel w0 w' ∧
    ∀ (idx : nat) (roi0 : Roi) (off : point),
      idx ∈ selection w0 → roiCoordinates w0 !! idx = Some roi0 →
      rel !! idx = Some off →
      roiCoordinates w' !! idx = Some (placed x y off roi0).
Proof.
  intros (Hd & Hrel & Hsel & Hin & Hout).
  destruct (drag_selection_spec x y rel (selection w) (roiCoordinates w))
    as (rois' & Hrun & Hin' & Hout').
  { intros idx Hidx. rewrite Hsel in Hidx.
    destruct (Hin idx Hidx) as (roi0 & roi & off & _ & Hl & Ho & Hw & Hh & _ & Hw0 & Hh0).
    exists roi, off. repeat split; [assumption|assumption|lia|lia]. }
  assert (Hplaced : ∀ (idx : nat) (roi0 : Roi) (off : point),
             idx ∈ selection w0 → roiCoordinates w0 !! idx = Some roi0 →
             rel !! idx = Some off → rois' !! idx = Some (placed x y off roi0)).
  { intros idx roi0 off Hidx Hl0 Ho.
    destruct (Hin idx Hidx) as (r0 & roi & o & Hl0' & Hl & Ho' & Hw & Hh & Hs & _).
    assert (r0 = roi0) by congruence. assert (o = off) by congruence. subst.
    rewrite (Hin' idx roi off); [|rewrite Hsel; exact Hidx|exact Hl|exact Ho].
    f_equal. apply placed_same_size; assumption. }
  assert (Hstate : drag_state d rel w0 (set_roiCoordinates w rois')).
  { repeat split; try assumption.
    - intros idx Hidx.
      destruct (Hin idx Hidx) as (roi0 & roi & off & Hl0 & Hl & Ho & Hw & Hh & Hs & Hw0 & Hh0).
      exists roi0, (placed x y off roi0), off. simpl.
      rewrite (Hplaced idx roi0 off Hidx Hl0 Ho). repeat split; assumption.
    - intros idx Hidx. simpl. rewrite Hout' by (rewrite Hsel; exact Hidx).
      apply Hout. exact Hidx. }
  unfold leftMouseMove. rewrite Hd, Hrel.
  destruct (selection w) as [|i rest] eqn:Hs.
  - exists w. simpl. split; [reflexivity|]. split.
    + repeat split; try assumption. rewrite Hs. exact Hsel.
    + intros idx roi0 off Hidx. rewrite <- Hsel in Hidx. inversion Hidx.
  - exists (set_roiCoordinates w rois').
    change (0 <? length (i :: rest))%nat with true. cbv iota.
    rewrite Hrun. split; [reflexivity|]. split; [exact Hstate|exact Hplaced].
Qed.

Lemma drag_moves_keep_state (d : nat) (rel : gmap nat point) (w0 : RoiWindow)
    (pts : list (Z * Z)) :
  ∀ w : RoiWindow,
    drag_state d rel w0 w →
    ∃ w', session_run w (moves pts) = Some w' ∧ drag_state d rel w0 w'.
Proof.
  induction pts as [|[px py] rest IH]; intros w Hst.
  - exists w. split; [reflexivity|exact Hst].
  - destruct (drag_step d rel w0 w px py Hst) as (w1 & Hstep & Hst1 & _).
    destruct (IH w1 Hst1) as (w' & Hrun & Hst').
    exists w'. split; [|exact Hst'].
    unfold moves in *. cbn [map session_run fst snd].
    rewrite session_step_move, Hstep. exact Hrun.
Qed.

Lemma placed_translate (x0 y0 x y : Z) (roi : Roi) :
  dimensions_current roi →
  placed x y (fst (fst (coordinates roi)) - x0, snd (fst (coordinates roi)) - y0) roi
  = translate roi (x - x0) (y - y0).
Proof.
  unfold dimensions_current, placed, translate.
  destruct roi as [[[x1 y1] [x2 y2]] h wd st]; simpl.
  intros [-> ->]. f_equal. f_equal; f_equal; lia.
Qed.

(** C5 as stated fails: draw a ROI from bottom right to top left, draw a
    second one, select all, press inside the second and move by (5,5).
    ROI 0, corners [[50,60],[10,10]] and width -40, is selected; the move
    leaves it at [[15,15],[55,65]] with width 40 instead of translating
    both corners by (5,5) and keeping the width. *)
Lemma drag_flips_unnormalized_roi :
  ∃ w1,
    session_run (RoiWindow_init [])
      [down 50 60; move 10 10; up 10 10; down 100 100; move 200 200; up 200 200;
       EvSelectAll; down 150 150] = Some w1 ∧
    selection w1 = [0%nat; 1%nat] ∧ dragging w1 = Some 1%nat ∧ resizing w1 = None ∧
    ¬ drag_move_translates w1 150 150 155 155.
Proof.
  destruct (session_run (RoiWindow_init [])
              [down 50 60; move 10 10; up 10 10; down 100 100; move 200 200;
               up 200 200; EvSelectAll; down 150 150]) as [w1|] eqn:E;
    vm_compute in E; [|discriminate E].
  injection E as <-.
  eexists. split; [reflexivity|]. split; [reflexivity|].
  split; [reflexivity|]. split; [reflexivity|].
  intros (w2 & Hrun & Hsel & _).
  vm_compute in Hrun. injection Hrun as <-.
  specialize (Hsel 0%nat
                {| coordinates := ((50, 60), (10, 10)); height := -50; width := -40;
                   status := true |}
                (list_elem_of_here _ _) eq_refl).
  vm_compute in Hsel. discriminate Hsel.
Qed.

(** C5 (amended). Once a pointer-down at [(x0, y0)] has entered the
    dragging mode, and provided every selected ROI is normalized with
    width and height equal to its corner differences, any run of
    pointer-moves ending at [(x, y)] leaves every selected ROI translated
    by [(x - x0, y - y0)], both corners moved by that delta, width and
    height kept, and leaves the ROIs outside the selection unchanged. *)
Theorem drag_translates_selection
    (w w1 : RoiWindow) (x0 y0 : Z) (d : nat) (pts : list (Z * Z)) (x y : Z) :
  leftMouseDown w x0 y0 = Some w1 →
  resizing w1 = None → dragging w1 = Some d →
  (∀ (idx : nat) (roi : Roi),
     idx ∈ selection w1 → roiCoordinates w1 !! idx = Some roi →
     rectangle_invariant roi) →
  ∃ w2, session_run w1 (moves (pts ++ [(x, y)])) = Some w2 ∧
    selection w2 = selection w1 ∧ dragging w2 = Some d ∧
    (∀ (idx : nat) (roi : Roi),
       idx ∈ selection w1 → roiCoordinates w1 !! idx = Some roi →
       roiCoordinates w2 !! idx = Some (translate roi (x - x0) (y - y0)) ∧
       width (translate roi (x - x0) (y - y0)) = width roi ∧
       height (translate roi (x - x0) (y - y0)) = height roi) ∧
    (∀ idx : nat,
       idx ∉ selection w1 → roiCoordinates w2 !! idx = roiCoordinates w1 !! idx).
Proof.
  intros Hdown Hr Hd Hinv.
  destruct (leftMouseDown_dragging_inv w w1 x0 y0 d Hdown Hr Hd)
    as (_ & rel & Hrel & Hoffs).
  assert (Hst : drag_state d rel w1 w1).
  { repeat split; try assumption.
    intros idx Hidx. destruct (Hoffs idx Hidx) as (roi & Hl & Ho).
    destruct (Hinv idx roi Hidx Hl) as (_ & _ & Hw & Hh).
    exists roi, roi. eexists. repeat split; eassumption. }
  destruct (drag_moves_keep_state d rel w1 pts w1 Hst) as (wa & Hruna & Hsta).
  destruct (drag_step d rel w1 wa x y Hsta) as (w2 & Hstep & Hst2 & Hplaced).
  exists w2. split.
  - unfold moves. rewrite map_app, session_run_app.
    fold (moves pts). rewrite Hruna. simpl map.
    cbn [mbind option_bind session_run fst snd].
    rewrite session_step_move, Hstep. reflexivity.
  - destruct Hst2 as (Hd2 & _ & Hsel2 & _ & Hout2).
    split; [exact Hsel2|]. split; [exact Hd2|]. split; [|exact Hout2].
    intros idx roi Hidx Hl.
    destruct (Hoffs idx Hidx) as (roi' & Hl' & Ho).
    assert (roi' = roi) by congruence. subst roi'.
    destruct (Hinv idx roi Hidx Hl) as (_ & Hdims & _ & _).
    rewrite (Hplaced idx roi _ Hidx Hl Ho).
    rewrite (placed_translate x0 y0 x y roi Hdims).
    split; [reflexivity|].
    unfold translate. destruct (coordinates roi) as [[? ?] [? ?]]. split; reflexivity.
Qed.

(** The theorem on two selected ROIs dragged from (50,50) to (55,55) by
    way of (52,51): both end up translated by (5,5). *)
Lemma drag_translates_selection_witness :
  leftMouseDown two_selected 50 50 = Some drag_start ∧
  resizing drag_start = None ∧ dragging drag_start = Some 0%nat ∧
  selection drag_start = [0%nat; 1%nat] ∧
  ∃ w2, session_run drag_start (moves ([(52, 51)] ++ [(55, 55)])) = Some w2 ∧
        roiCoordinates w2 !! 0%nat = Some (translate roi_square 5 5) ∧
        roiCoordinates w2 !! 1%nat = Some (translate roi_apart 5 5).
Proof.
  assert (H1 : leftMouseDown two_selected 50 50 = Some drag_start)
    by (vm_compute; reflexivity).
  assert (H2 : resizing drag_start = None) by (vm_compute; reflexivity).
  assert (H3 : dragging drag_start = Some 0%nat) by (vm_compute; reflexivity).
  assert (Hsel : selection drag_start = [0%nat; 1%nat]) by (vm_compute; reflexivity).
  assert (Hrois : roiCoordinates drag_start = [roi_square; roi_apart])
    by (vm_compute; reflexivity).
  assert (H4 : ∀ (idx : nat) (roi : Roi),
             idx ∈ selection drag_start → roiCoordinates drag_start !! idx = Some roi →
             rectangle_invariant roi).
  { intros idx roi _ Hl. rewrite Hrois in Hl.
    destruct idx as [|[|idx]]; simpl in Hl; try discriminate;
      injection Hl as <-;
      unfold rectangle_invariant, normalized, dimensions_current; simpl; lia. }
  split; [exact H1|]. split; [exact H2|]. split; [exact H3|]. split; [exact Hsel|].
  destruct (drag_translates_selection two_selected drag_start 50 50 0
              [(52, 51)] 55 55 H1 H2 H3 H4) as (w2 & Hrun & _ & _ & Hin & _).
  exists w2. split; [exact Hrun|]. split.
  - apply (Hin 0%nat roi_square).
    + rewrite Hsel. apply list_elem_of_here.
    + rewrite Hrois. reflexivity.
  - apply (Hin 1%nat roi_apart).
    + rewrite Hsel. apply list_elem_of_further, list_elem_of_here.
    + rewrite Hrois. reflexivity.
Defined.

(** ** Resizing *)

Example down_on_top_edge :
  session_run (RoiWindow_init [roi_wide]) [down 60 10] = Some resize_start.
Proof. reflexivity. Qed.

(** C6 as stated fails: [roi_wide], corners [[10,10],[110,60]], is grabbed
    by its top edge (mask (0,1,0,0)) and the pointer moves to y = 100,
    below the bottom edge.  The ROI becomes [[10,60],[110,100]]: corner 1's
    y, which the mask does not flag, went from 60 to 100. *)
Lemma resize_across_edge_changes_unflagged_corner :
  ∃ w2 roi',
    session_run resize_start [move 60 100] = Some w2 ∧
    roiCoordinates w2 = [roi'] ∧
    coordinates roi' = ((10, 60), (110, 100)) ∧
    ¬ unflagged_coordinates_unchanged (0, 1, 0, 0) roi_wide roi'.
Proof.
  eexists. eexists. split; [reflexivity|]. split; [reflexivity|].
  split; [reflexivity|].
  unfold unflagged_coordinates_unchanged. simpl.
  intros (_ & _ & _ & H). specialize (H ltac:(discriminate)). discriminate H.
Qed.

(** The resizing branch on a normalized ROI, axis by axis. *)
Lemma resize_roi_spec (x y : Z) (m : mask) (rx ry : Z) (roi : Roi) :
  normalized roi →
  ∃ roi', resize_roi x y m (RelList [rx; ry]) roi = Some roi' ∧
    normalized roi' ∧ status roi' = status roi ∧
    (mask_left m ≠ 1 → mask_right m ≠ 1 →
     fst (fst (coordinates roi')) = fst (fst (coordinates roi)) ∧
     fst (snd (coordinates roi')) = fst (snd (coordinates roi))) ∧
    (mask_top m ≠ 1 → mask_bottom m ≠ 1 →
     snd (fst (coordinates roi')) = snd (fst (coordinates roi)) ∧
     snd (snd (coordinates roi')) = snd (snd (coordinates roi))) ∧
    (mask_top m = 1 → mask_bottom m ≠ 1 →
     snd (fst (coordinates roi')) = Z.min (y + ry) (snd (snd (coordinates roi))) ∧
     snd (snd (coordinates roi')) = Z.max (y + ry) (snd (snd (coordinates roi)))) ∧
    (mask_bottom m = 1 → mask_top m ≠ 1 →
     snd (fst (coordinates roi')) = Z.min (snd (fst (coordinates roi))) (y + ry) ∧
     snd (snd (coordinates roi')) = Z.max (snd (fst (coordinates roi))) (y + ry)) ∧
    (mask_left m = 1 → mask_right m ≠ 1 →
     fst (fst (coordinates roi')) = Z.min (x + rx) (fst (snd (coordinates roi))) ∧
     fst (snd (coordinates roi')) = Z.max (x + rx) (fst (snd (coordinates roi)))) ∧
    (mask_right m = 1 → mask_left m ≠ 1 →
     fst (fst (coordinates roi')) = Z.min (fst (fst (coordinates roi))) (x + rx) ∧
     fst (snd (coordinates roi')) = Z.max (fst (fst (coordinates roi))) (x + rx)).
Proof.
  destruct roi as [[[x0 y0] [x1 y1]] h wd st].
  destruct m as [[[l t] r] b].
  unfold normalized, resize_roi, mask_left, mask_top, mask_right, mask_bottom.
  simpl. intros [Hx Hy].
  destruct (Z.eqb_spec t 1) as [Ht|Ht]; destruct (Z.eqb_spec b 1) as [Hb|Hb];
    destruct (Z.eqb_spec l 1) as [Hl|Hl]; destruct (Z.eqb_spec r 1) as [Hr|Hr];
    simpl; (eexists; split; [reflexivity|]); simpl;
    repeat split; intros; try congruence; lia.
Qed.

(** C6 (amended). While a normalized ROI is resized with a handle mask, a
    pointer-move rewrites that ROI only, and changes only the axes the
    mask flags: an axis with neither of its flags set keeps both of its
    coordinates.  On a flagged axis the grabbed edge takes the pointer
    coordinate plus the recorded offset and the axis is sorted again, so
    the opposite, unflagged coordinate keeps its value, in its own corner
    as long as the handle has not crossed it and in the other corner once
    it has. *)
Theorem resize_changes_flagged_axes_only
    (w : RoiWindow) (idx : nat) (m : mask) (rx ry x y : Z) (roi : Roi) :
  dragging w = None → resizing w = Some (idx, m) →
  relativeCoordinates w = RelList [rx; ry] →
  roiCoordinates w !! idx = Some roi →
  normalized roi →
  ∃ roi',
    leftMouseMove w x y
    = Some (set_roiCoordinates w (<[idx := roi']> (roiCoordinates w))) ∧
    normalized roi' ∧
    (mask_left m ≠ 1 → mask_right m ≠ 1 →
     fst (fst (coordinates roi')) = fst (fst (coordinates roi)) ∧
     fst (snd (coordinates roi')) = fst (snd (coordinates roi))) ∧
    (mask_top m ≠ 1 → mask_bottom m ≠ 1 →
     snd (fst (coordinates roi')) = snd (fst (coordinates roi)) ∧
     snd (snd (coordinates roi')) = snd (snd (coordinates roi))) ∧
    (mask_top m = 1 → mask_bottom m ≠ 1 →
     snd (fst (coordinates roi')) = Z.min (y + ry) (snd (snd (coordinates roi))) ∧
     snd (snd (coordinates roi')) = Z.max (y + ry) (snd (snd (coordinates roi)))) ∧
    (mask_bottom m = 1 → mask_top m ≠ 1 →
     snd (fst (coordinates roi')) = Z.min (snd (fst (coordinates roi))) (y + ry) ∧
     snd (snd (coordinates roi')) = Z.max (snd (fst (coordinates roi))) (y + ry)) ∧
    (mask_left m = 1 → mask_right m ≠ 1 →
     fst (fst (coordinates roi')) = Z.min (x + rx) (fst (snd (coordinates roi))) ∧
     fst (snd (coordinates roi')) = Z.max (x + rx) (fst (snd (coordinates roi)))) ∧
    (mask_right m = 1 → mask_left m ≠ 1 →
     fst (fst (coordinates roi')) = Z.min (fst (fst (coordinates roi))) (x + rx) ∧
     fst (snd (coordinates roi')) = Z.max (fst (fst (coordinates roi))) (x + rx)).
Proof.
  intros Hd Hr Hrel Hl Hn.
  destruct (resize_roi_spec x y m rx ry roi Hn)
    as (roi' & Hres & Hn' & _ & Hrest).
  exists roi'. split; [|split; [exact Hn'|exact Hrest]].
  unfold leftMouseMove. rewrite Hd, Hr, Hl, Hrel. simpl.
  rewrite Hres. reflexivity.
Qed.

(** The theorem on [resize_start] with the pointer moved to (60,100). *)
Lemma resize_changes_flagged_axes_only_witness :
  normalized roi_wide ∧
  ∃ roi',
    leftMouseMove resize_start 60 100
    = Some (set_roiCoordinates resize_start [roi']) ∧
    fst (fst (coordinates roi')) = 10 ∧ fst (snd (coordinates roi')) = 110 ∧
    snd (fst (coordinates roi')) = 60 ∧ snd (snd (coordinates roi')) = 100.
Proof.
  assert (Hn : normalized roi_wide) by (unfold normalized; simpl; lia).
  split; [exact Hn|].
  destruct (resize_changes_flagged_axes_only resize_start 0 (0, 1, 0, 0) 60 0
              60 100 roi_wide eq_refl eq_refl eq_refl eq_refl Hn)
    as (roi' & Hmove & _ & Hx & _ & Htop & _).
  exists roi'. split; [exact Hmove|].
  destruct Hx as [Hx0 Hx1]; [discriminate|discriminate|].
  destruct Htop as [Hy0 Hy1]; [reflexivity|discriminate|].
  repeat split; assumption.
Defined.

(** ** The batch loop *)

Lemma succeeded_failed_length (ffmpeg_run : Job → bool) (jobs : list Job) :
  (succeeded ffmpeg_run jobs + failed ffmpeg_run jobs)%nat = length jobs.
Proof.
  unfold succeeded, failed.
  induction jobs as [|j rest IH]; [reflexivity|].
  simpl. destruct (ffmpeg_run j); simpl; lia.
Qed.

Lemma succeeded_app (ffmpeg_run : Job → bool) (l1 l2 : list Job) :
  succeeded ffmpeg_run (l1 ++ l2)
  = (succeeded ffmpeg_run l1 + succeeded ffmpeg_run l2)%nat.
Proof. unfold succeeded. rewrite List.filter_app, length_app. reflexivity. Qed.

Lemma failed_app (ffmpeg_run : Job → bool) (l1 l2 : list Job) :
  failed ffmpeg_run (l1 ++ l2) = (failed ffmpeg_run l1 + failed ffmpeg_run l2)%nat.
Proof. unfold failed. rewrite List.filter_app, length_app. reflexivity. Qed.

Lemma progress_from_app (r n1 n2 total : nat) :
  progress_from r (n1 + n2) total
  = progress_from r n1 total ++ progress_from (r + n1) n2 total.
Proof.
  unfold progress_from. rewrite seq_app, fmap_app. reflexivity.
Qed.

Section batch_facts.

Variable stem : string → string.
Variable path_join : string → string → string.
Variable makedirs_ok : string → bool.
Variable ffmpeg_run : Job → bool.
Variable output_folder : string.
Variable boleanFilter : Z.
Variable textFilter : string.

(** Every directory can be created. *)
Hypothesis makedirs_succeeds : ∀ p : string, makedirs_ok p = true.

Lemma extends_by_nil (total : nat) (st st' : LoopState) :
  transcoder_jobs (trace st') = transcoder_jobs (trace st) →
  rendered_video st' = rendered_video st →
  progress_updates (trace st') = progress_updates (trace st) →
  error_messages (trace st') = error_messages (trace st) →
  status_sets (trace st') = status_sets (trace st) →
  extends_by ffmpeg_run total st st' [].
Proof.
  intros H1 H2 H3 H4 H5. unfold extends_by, succeeded, failed, progress_from. simpl.
  rewrite H1, H2, H3, H4, H5, !app_nil_r. repeat split; lia.
Qed.

Lemma extends_by_trans (total : nat) (st1 st2 st3 : LoopState) (l1 l2 : list Job) :
  extends_by ffmpeg_run total st1 st2 l1 → extends_by ffmpeg_run total st2 st3 l2 →
  extends_by ffmpeg_run total st1 st3 (l1 ++ l2).
Proof.
  intros (A1 & A2 & A3 & A4 & A5) (B1 & B2 & B3 & B4 & B5).
  unfold extends_by.
  rewrite succeeded_app, failed_app, progress_from_app, fmap_app.
  rewrite B1, B2, B3, B4, B5, A1, A2, A3, A4, A5, <- !app_assoc.
  repeat split; lia.
Qed.

(** One iteration of the inner loop: the job is submitted; a success
    raises the count and reports progress, a failure shows an error. *)
Lemma crop_rois_spec (video_path : string) (total : nat) (rois : list Roi) :
  ∀ (i : nat) (st : LoopState),
    ∃ st',
      crop_rois stem path_join makedirs_ok ffmpeg_run output_folder boleanFilter
        textFilter video_path total i rois st = inl st' ∧
      extends_by ffmpeg_run total st st'
        (video_jobs stem path_join output_folder boleanFilter textFilter
           video_path i rois).
Proof.
  induction rois as [|roi rest IH]; intros i st.
  - exists st. split; [reflexivity|]. apply extends_by_nil; reflexivity.
  - cbn [crop_rois video_jobs].
    set (j := crop_job stem path_join output_folder boleanFilter textFilter
                video_path (S i) roi).
    set (sub := subfolder_of stem path_join output_folder video_path).
    rewrite makedirs_succeeds.
    set (st1 := if bool_decide (sub ∈ dirs st) then st
                else mkLoopState (sub :: dirs (emit st (MakeDirs sub)))
                       (rendered_video (emit st (MakeDirs sub)))
                       (trace (emit st (MakeDirs sub)))).
    assert (H01 : extends_by ffmpeg_run total st st1 []).
    { unfold st1. destruct (bool_decide (sub ∈ dirs st)).
      - apply extends_by_nil; reflexivity.
      - apply extends_by_nil; simpl; try reflexivity;
          unfold transcoder_jobs, progress_updates, error_messages, status_sets;
          rewrite omap_app; simpl; apply app_nil_r. }
    replace (if bool_decide (sub ∈ dirs st) then inl st
             else inl (mkLoopState (sub :: dirs (emit st (MakeDirs sub)))
                         (rendered_video (emit st (MakeDirs sub)))
                         (trace (emit st (MakeDirs sub)))))
      with (@inl LoopState LoopState st1)
      by (unfold st1; destruct (bool_decide (sub ∈ dirs st)); reflexivity).
    cbv iota beta.
    set (st3 := if ffmpeg_run j then _ else _).
    assert (H13 : extends_by ffmpeg_run total st1 st3 [j]).
    { unfold st3, extends_by, succeeded, failed, progress_from.
      simpl. destruct (ffmpeg_run j); simpl;
        unfold transcoder_jobs, progress_updates, error_messages, status_sets;
        rewrite ?omap_app, ?length_app; simpl;
        rewrite ?app_nil_r, <- ?app_assoc; simpl;
        repeat split; try lia; try reflexivity.
      all: rewrite ?length_app; simpl; try lia. }
    destruct (IH (S i) st3) as (st' & Hrun & H3).
    exists st'. split; [exact Hrun|].
    change (j :: video_jobs stem path_join output_folder boleanFilter textFilter
                   video_path (S i) rest)
      with (([] ++ [j]) ++ video_jobs stem path_join output_folder boleanFilter
                             textFilter video_path (S i) rest).
    eapply extends_by_trans; [|exact H3].
    eapply extends_by_trans; [exact H01|exact H13].
Qed.

Lemma extends_by_emit (total : nat) (st : LoopState) (e : Effect) :
  match e with
  | OpenCapture _ | ReleaseCapture _ | ShowProgressBar | CloseProgressWindow
  | MakeDirs _ => True
  | _ => False
  end →
  extends_by ffmpeg_run total st (emit st e) [].
Proof.
  intros He. apply extends_by_nil; try reflexivity;
    unfold transcoder_jobs, progress_updates, error_messages, status_sets;
    simpl; rewrite omap_app; destruct e; try contradiction; apply app_nil_r.
Qed.

(** The outer loop: every video with ROIs is opened, cropped and
    released; a failing job never stops it. *)
Lemma crop_videos_spec (total : nat) (items : list (string * list Roi)) :
  ∀ st : LoopState,
    ∃ st',
      crop_videos stem path_join makedirs_ok ffmpeg_run output_folder boleanFilter
        textFilter total items st = inl st' ∧
      extends_by ffmpeg_run total st st'
        (batch_jobs stem path_join output_folder boleanFilter textFilter items).
Proof.
  induction items as [|[video_path rois] rest IH]; intros st.
  - exists st. split; [reflexivity|]. apply extends_by_nil; reflexivity.
  - cbn [crop_videos batch_jobs]. destruct rois as [|roi rois'].
    + destruct (IH st) as (st' & Hrun & Hext). exists st'. split; assumption.
    + destruct (crop_rois_spec video_path total (roi :: rois') 0
                  (emit st (OpenCapture video_path))) as (st1 & Hrois & H1).
      rewrite Hrois.
      destruct (IH (emit st1 (ReleaseCapture video_path))) as (st' & Hrun & H2).
      exists st'. split; [exact Hrun|].
      eapply extends_by_trans; [|exact H2].
      rewrite <- (app_nil_l (video_jobs _ _ _ _ _ _ _ _)).
      eapply extends_by_trans;
        [exact (extends_by_emit total st (OpenCapture video_path) I)|].
      rewrite <- (app_nil_r (video_jobs _ _ _ _ _ _ _ _)).
      eapply extends_by_trans;
        [exact H1|exact (extends_by_emit total st1 (ReleaseCapture video_path) I)].
Qed.

(** The whole batch, once a video is selected, the dictionary is not
    empty and an output folder is chosen: it finishes; every job of
    every video is submitted in order; the completed count is the number
    of jobs that succeed, each of them followed by one progress update,
    and each failing job by one error message. *)
Lemma crop_video_report (working_video_path : string)
    (roi_dict : list (string * list Roi)) (existing : list string) :
  working_video_path ≠ "" → roi_dict ≠ [] → output_folder ≠ "" →
  let jobs := batch_jobs stem path_join output_folder boleanFilter textFilter
                roi_dict in
  let total := total_crops_of roi_dict in
  ∃ st,
    crop_video stem path_join makedirs_ok ffmpeg_run output_folder boleanFilter
      textFilter working_video_path roi_dict existing = (Finished, st) ∧
    transcoder_jobs (trace st) = jobs ∧
    rendered_video st = succeeded ffmpeg_run jobs ∧
    progress_updates (trace st) = progress_from 0 (succeeded ffmpeg_run jobs) total ∧
    length (error_messages (trace st)) = failed ffmpeg_run jobs ∧
    status_sets (trace st)
    = None :: (Some <$> progress_from 0 (succeeded ffmpeg_run jobs) total).
Proof.
  intros Hv Hd Ho jobs total. unfold crop_video.
  rewrite (bool_decide_eq_false_2 _ Hv), (bool_decide_eq_false_2 _ Ho).
  destruct roi_dict as [|item items]; [contradiction|].
  change (length (item :: items) <? 1)%nat with false. cbv iota.
  set (st1 := emit (emit (mkLoopState existing 0 []) StatusReset) ShowProgressBar).
  destruct (crop_videos_spec total (item :: items) st1)
    as (st' & Hrun & H1 & H2 & H3 & H4 & H5).
  fold total. rewrite Hrun. eexists. split; [reflexivity|].
  unfold transcoder_jobs, progress_updates, error_messages, status_sets in *.
  simpl. rewrite !omap_app. simpl. rewrite !app_nil_r.
  rewrite H1, H2, H3, H5. fold jobs. repeat split.
  rewrite H4. reflexivity.
Qed.

End batch_facts.

(** C8 as stated fails: in [example_run] (two videos with 2 and 1 ROIs,
    the job of the second video failing) the batch finishes with 2 jobs
    completed and 1 error reported, but progress is reported twice, not
    three times: the failing job reports none. *)
Lemma failing_job_reports_no_progress :
  fst example_run = Finished ∧
  length (transcoder_jobs (trace (snd example_run))) = 3%nat ∧
  rendered_video (snd example_run) = 2%nat ∧
  length (error_messages (trace (snd example_run))) = 1%nat ∧
  progress_updates (trace (snd example_run)) = [(1, 3); (2, 3)]%nat ∧
  ¬ (length (progress_updates (trace (snd example_run))) = 3%nat).
Proof.
  assert (H : progress_updates (trace (snd example_run)) = [(1, 3); (2, 3)]%nat)
    by (vm_compute; reflexivity).
  split; [vm_compute; reflexivity|]. split; [vm_compute; reflexivity|].
  split; [vm_compute; reflexivity|]. split; [vm_compute; reflexivity|].
  split; [exact H|]. rewrite H. simpl. lia.
Qed.

(** C8 (amended). For a batch over 2 videos with 2 and 1 ROIs in which
    exactly one transcoder job fails (directories can be created, a video
    is selected, an output folder is chosen): the batch runs to its end
    and submits all 3 jobs in order; the failing job is reported by one
    error message; 2 jobs are counted as completed; the status is reset to
    0 once, before the first job, and progress is then reported once per
    completed job, exactly twice, with completed counts 1 and 2 over the
    total of 3 computed up front.  The failing job reports no progress. *)
Theorem batch_two_videos_one_failing_job
    (stem : string → string) (path_join : string → string → string)
    (makedirs_ok : string → bool) (ffmpeg_run : Job → bool)
    (output_folder : string) (boleanFilter : Z) (textFilter : string)
    (working_video_path v1 v2 : string) (r1 r2 r3 : Roi) (existing : list string) :
  working_video_path ≠ "" → output_folder ≠ "" →
  (∀ p : string, makedirs_ok p = true) →
  failed ffmpeg_run
    [crop_job stem path_join output_folder boleanFilter textFilter v1 1 r1;
     crop_job stem path_join output_folder boleanFilter textFilter v1 2 r2;
     crop_job stem path_join output_folder boleanFilter textFilter v2 1 r3] = 1%nat →
  ∃ st,
    crop_video stem path_join makedirs_ok ffmpeg_run output_folder boleanFilter
      textFilter working_video_path [(v1, [r1; r2]); (v2, [r3])] existing
    = (Finished, st) ∧
    transcoder_jobs (trace st)
    = [crop_job stem path_join output_folder boleanFilter textFilter v1 1 r1;
       crop_job stem path_join output_folder boleanFilter textFilter v1 2 r2;
       crop_job stem path_join output_folder boleanFilter textFilter v2 1 r3] ∧
    rendered_video st = 2%nat ∧
    length (error_messages (trace st)) = 1%nat ∧
    progress_updates (trace st) = [(1, 3); (2, 3)]%nat ∧
    status_sets (trace st) = [None; Some (1, 3); Some (2, 3)]%nat.
Proof.
  intros Hv Ho Hmk Hfail.
  destruct (crop_video_report stem path_join makedirs_ok ffmpeg_run output_folder
              boleanFilter textFilter Hmk working_video_path
              [(v1, [r1; r2]); (v2, [r3])] existing Hv ltac:(discriminate) Ho)
    as (st & Hrun & Hjobs & Hdone & Hprog & Herr & Hsets).
  cbn [batch_jobs video_jobs app total_crops_of foldr length snd Nat.add] in *.
  pose proof (succeeded_failed_length ffmpeg_run
                [crop_job stem path_join output_folder boleanFilter textFilter v1 1 r1;
                 crop_job stem path_join output_folder boleanFilter textFilter v1 2 r2;
                 crop_job stem path_join output_folder boleanFilter textFilter v2 1 r3])
    as Hlen.
  rewrite Hfail in Hlen. simpl length in Hlen.
  assert (Hs : succeeded ffmpeg_run
                 [crop_job stem path_join output_folder boleanFilter textFilter v1 1 r1;
                  crop_job stem path_join output_folder boleanFilter textFilter v1 2 r2;
                  crop_job stem path_join output_folder boleanFilter textFilter v2 1 r3]
               = 2%nat) by lia.
  rewrite Hs in *. rewrite Hfail in Herr.
  exists st. repeat split; assumption.
Qed.

(** The theorem in the world of [example_run]. *)
Lemma batch_two_videos_one_failing_job_witness :
  ∃ st, example_run = (Finished, st) ∧ rendered_video st = 2%nat ∧
        progress_updates (trace st) = [(1, 3); (2, 3)]%nat.
Proof.
  destruct (batch_two_videos_one_failing_job (λ p, p) (λ a b, a +:+ "/" +:+ b)
              (λ _, true) (λ j, negb (bool_decide (job_input j = "b.mp4")))
              "out" 0 "" "a.mp4" "a.mp4" "b.mp4" roi_square roi_far roi_wide [])
    as (st & Hrun & _ & Hdone & _ & Hprog & _).
  - discriminate.
  - discriminate.
  - reflexivity.
  - vm_compute. reflexivity.
  - exists st. split; [exact Hrun|]. split; [exact Hdone|exact Hprog].
Defined.

(** ** The saved flag *)

(** Deleting never touches [saved]. *)
Lemma deleteRoi_keeps_saved (w w' : RoiWindow) (key : DeleteKey) :
  deleteRoi w key = Some w' → saved w' = saved w.
Proof.
  destruct key as [k|l]; simpl.
  - destruct (roiCoordinates w !! k); simpl; [|discriminate].
    intros [= <-]. reflexivity.
  - intros [= <-]. reflexivity.
Qed.

(** Nor does closing the edit dialog. *)
Lemma editRoi_close_keeps_saved (w w' : RoiWindow) (k : nat) (a b c d : Z)
    (response : bool) :
  editRoi_close w k a b c d response = Some w' → saved w' = saved w.
Proof.
  unfold editRoi_close.
  destruct (roiCoordinates w !! k); simpl; [|discriminate].
  case_bool_decide; [intros [= <-]; reflexivity|].
  destruct response; intros [= <-]; reflexivity.
Qed.

Lemma leftMouseDown_keeps_saved (w w' : RoiWindow) (x y : Z) :
  leftMouseDown w x y = Some w' → saved w' = saved w.
Proof.
  unfold leftMouseDown.
  pose proof (leftMouseDown_loop_frame x y (roiCoordinates w) 0 w) as Hframe.
  simpl in Hframe. destruct Hframe as (_ & _ & _ & Hsaved).
  set (w1 := leftMouseDown_loop x y 0 (roiCoordinates w) w) in *.
  simpl. destruct (resizing w1) as [r|]; [intros [= <-]; exact Hsaved|].
  destruct (dragging w1) as [d|]; [|intros [= <-]; exact Hsaved].
  match goal with
  | |- context [record_offsets ?a ?b ?c ?s ?e] =>
      destruct (record_offsets a b c s e) as [rel|]; [|discriminate]
  end.
  simpl. intros [= <-]. simpl. destruct (decide (d ∈ selection w1)); exact Hsaved.
Qed.

Lemma leftMouseUp_keeps_saved (w w' : RoiWindow) (x y : Z) :
  leftMouseUp w x y = Some w' → saved w' = saved w.
Proof.
  unfold leftMouseUp.
  destruct (resizing w); [intros [= <-]; reflexivity|].
  destruct (dragging w); intros [= <-]; reflexivity.
Qed.

(** The pointer path does mark the session dirty: a press or a release of
    button 1 without shift sets [saved] to false before it is handled. *)
Lemma left_button_marks_dirty (w w' : RoiWindow) (x y st : Z) :
  Z.land st 1 = 0 →
  (mouseEvent w (mkEvent ButtonPress 1 st x y) = Some w' ∨
   mouseEvent w (mkEvent ButtonRelease 1 st x y) = Some w') →
  saved w' = false.
Proof.
  intros Hst [H|H]; unfold mouseEvent in H; simpl in H; rewrite Hst in H; simpl in H.
  - apply leftMouseDown_keeps_saved in H. exact H.
  - apply leftMouseUp_keeps_saved in H. exact H.
Qed.

(** C7. In a fresh session on one ROI (nothing unsaved), select-all
    followed by delete empties the collection and leaves [saved] true; so
    does the menu's delete, and an edit-dialog change of the corners. *)
Theorem delete_and_edit_leave_session_clean :
  (∃ w', session_run (RoiWindow_init [roi_square]) [EvSelectAll; EvDelete] = Some w' ∧
         roiCoordinates w' = [] ∧ saved w' = true) ∧
  (∃ w', session_run (RoiWindow_init [roi_square]) [EvMenuDelete 0] = Some w' ∧
         roiCoordinates w' = [] ∧ saved w' = true) ∧
  (∃ w', session_run (RoiWindow_init [roi_square]) [EvEditClose 0 5 5 100 100 true]
         = Some w' ∧
         roiCoordinates w' =
           [ {| coordinates := ((5, 5), (100, 100)); height := 95; width := 95;
                status := false |} ] ∧
         saved w' = true).
Proof. repeat split; eexists; (split; [reflexivity|]); repeat split. Qed.

(** * Further properties of the code *)

(** ** The rectangle, continued *)

(** X1. [setRoi] does not depend on the order of its two points, and the
    size it stores is the absolute difference of the points on each axis. *)
Theorem setRoi_symmetric_absolute_size (r : Roi) (a b : point) :
  Roi.setRoi r a b = Roi.setRoi r b a ∧
  width (Roi.setRoi r a b) = Z.abs (fst a - fst b) ∧
  height (Roi.setRoi r a b) = Z.abs (snd a - snd b).
Proof.
  destruct a as [ax ay], b as [bx by_].
  unfold Roi.setRoi, Roi.calculateDimensions, Roi.sortCoordinates. simpl.
  split; [|split; lia].
  rewrite (Z.min_comm ax bx), (Z.min_comm ay by_),
    (Z.max_comm ax bx), (Z.max_comm ay by_).
  reflexivity.
Qed.

(** ** Deleting *)

Lemma drop_indices_sublist (key : list nat) (rois : list Roi) :
  ∀ idx : nat, sublist (drop_indices key idx rois) rois.
Proof.
  induction rois as [|r rest IH]; intros idx; simpl; [constructor|].
  destruct (decide (idx ∈ key)).
  - apply sublist_cons. apply IH.
  - apply sublist_skip. apply IH.
Qed.

Lemma drop_indices_elem (key : list nat) (rois : list Roi) :
  ∀ (idx : nat) (roi : Roi),
    roi ∈ drop_indices key idx rois ↔
    ∃ k : nat, rois !! k = Some roi ∧ (idx + k)%nat ∉ key.
Proof.
  induction rois as [|r rest IH]; intros idx roi; simpl.
  - split; [intros H; inversion H|intros (k & Hk & _); discriminate].
  - destruct (decide (idx ∈ key)) as [Hin|Hnot].
    + rewrite IH. split.
      * intros (k & Hk & Hn). exists (S k). split; [exact Hk|].
        replace (idx + S k)%nat with (S idx + k)%nat by lia. exact Hn.
      * intros ([|k] & Hk & Hn).
        -- rewrite Nat.add_0_r in Hn. contradiction.
        -- exists k. split; [exact Hk|].
           replace (S idx + k)%nat with (idx + S k)%nat by lia. exact Hn.
    + rewrite elem_of_cons, IH. split.
      * intros [->|(k & Hk & Hn)].
        -- exists 0%nat. split; [reflexivity|]. rewrite Nat.add_0_r. exact Hnot.
        -- exists (S k). split; [exact Hk|].
           replace (idx + S k)%nat with (S idx + k)%nat by lia. exact Hn.
      * intros ([|k] & Hk & Hn).
        -- left. simpl in Hk. congruence.
        -- right. exists k. split; [exact Hk|].
           replace (S idx + k)%nat with (idx + S k)%nat by lia. exact Hn.
Qed.

Lemma drop_indices_length (key : list nat) (rois : list Roi) :
  ∀ idx : nat,
    (length (drop_indices key idx rois)
     + length (List.filter (λ i, bool_decide (i ∈ key)) (seq idx (length rois))))%nat
    = length rois.
Proof.
  induction rois as [|r rest IH]; intros idx; simpl; [reflexivity|].
  destruct (decide (idx ∈ key)) as [Hin|Hnot].
  - rewrite (bool_decide_eq_true_2 _ Hin). simpl. specialize (IH (S idx)). lia.
  - rewrite (bool_decide_eq_false_2 _ Hnot). simpl. specialize (IH (S idx)). lia.
Qed.

Lemma drop_indices_all (key : list nat) (rois : list Roi) :
  ∀ idx : nat,
    (∀ k : nat, (k < length rois)%nat → (idx + k)%nat ∈ key) →
    drop_indices key idx rois = [].
Proof.
  induction rois as [|r rest IH]; intros idx Hall; simpl; [reflexivity|].
  destruct (decide (idx ∈ key)) as [Hin|Hnot].
  - apply IH. intros k Hk.
    replace (S idx + k)%nat with (idx + S k)%nat by lia.
    apply Hall. simpl. lia.
  - exfalso. apply Hnot. specialize (Hall 0%nat). rewrite Nat.add_0_r in Hall.
    apply Hall. simpl. lia.
Qed.

Lemma drop_indices_single (rois : list Roi) :
  ∀ idx k : nat, drop_indices [(idx + k)%nat] idx rois = delete k rois.
Proof.
  induction rois as [|r rest IH]; intros idx k; simpl.
  - destruct k; reflexivity.
  - destruct (decide (idx ∈ [(idx + k)%nat])) as [Hin|Hnot].
    + apply list_elem_of_singleton in Hin.
      assert (k = 0%nat) by lia. subst k. simpl.
      clear. rewrite Nat.add_0_r.
      assert (H : ∀ (l : list Roi) (i : nat), drop_indices [idx] (S idx + i) l = l).
      { induction l as [|a l IHl]; intros i; simpl; [reflexivity|].
        destruct (decide ((S (idx + i))%nat ∈ [idx])) as [Hin|_].
        - apply list_elem_of_singleton in Hin. lia.
        - f_equal. replace (S (S (idx + i))) with (S idx + S i)%nat by lia.
          apply (IHl (S i)). }
      specialize (H rest 0%nat). rewrite Nat.add_0_r in H. exact H.
    + destruct k as [|k].
      * exfalso. apply Hnot. rewrite Nat.add_0_r. apply list_elem_of_here.
      * simpl. f_equal.
        replace (idx + S k)%nat with (S idx + k)%nat by lia. apply IH.
Qed.

(** X2. Deleting by a list of indices keeps, in their order, exactly the
    ROIs whose index is not in the list (indices beyond the collection are
    ignored), clears the selection and touches nothing else. *)
Theorem deleteRoi_list_keeps_the_others (w : RoiWindow) (key : list nat) :
  ∃ w',
    deleteRoi w (KeyList key) = Some w' ∧
    sublist (roiCoordinates w') (roiCoordinates w) ∧
    (∀ roi : Roi,
       roi ∈ roiCoordinates w' ↔
       ∃ k : nat, roiCoordinates w !! k = Some roi ∧ k ∉ key) ∧
    (length (roiCoordinates w')
     + length (List.filter (λ i, bool_decide (i ∈ key))
                 (seq 0 (length (roiCoordinates w)))))%nat
    = length (roiCoordinates w) ∧
    selection w' = [] ∧ saved w' = saved w ∧ dragging w' = dragging w ∧
    resizing w' = resizing w ∧ newRoi w' = newRoi w.
Proof.
  eexists. split; [reflexivity|]. simpl.
  split; [apply drop_indices_sublist|].
  split; [intros roi; apply (drop_indices_elem key (roiCoordinates w) 0 roi)|].
  split; [apply drop_indices_length|]. repeat split.
Qed.

(** X3. Deleting by one integer index [k] is the deletion by the list
    [[k]] when [k] is an index of the collection; beyond the collection
    the integer form raises while the list form only clears the
    selection. *)
Theorem deleteRoi_int_versus_list (w : RoiWindow) (k : nat) :
  deleteRoi w (KeyInt k)
  = (if decide (k < length (roiCoordinates w))%nat
     then deleteRoi w (KeyList [k]) else None) ∧
  (if decide (k < length (roiCoordinates w))%nat
   then length (roiCoordinates (default w (deleteRoi w (KeyInt k))))
        = pred (length (roiCoordinates w))
   else deleteRoi w (KeyList [k]) = Some (resetSelection w)).
Proof.
  pose proof (drop_indices_single (roiCoordinates w) 0 k) as Hs. simpl in Hs.
  destruct (decide (k < length (roiCoordinates w))%nat) as [Hlt|Hge].
  - destruct (lookup_lt_is_Some_2 _ _ Hlt) as [roi Hroi].
    assert (Hint : deleteRoi w (KeyInt k)
                   = Some (resetSelection
                             (set_roiCoordinates w (delete k (roiCoordinates w))))).
    { unfold deleteRoi. rewrite Hroi. reflexivity. }
    rewrite Hint. split.
    + unfold deleteRoi. rewrite Hs. reflexivity.
    + simpl. rewrite length_delete by eauto. lia.
  - split.
    + unfold deleteRoi. rewrite (lookup_ge_None_2 (roiCoordinates w) k) by lia.
      reflexivity.
    + unfold deleteRoi. rewrite Hs.
      rewrite delete_take_drop, take_ge, drop_ge, app_nil_r by lia.
      destruct w; reflexivity.
Qed.

(** X4. Select-all followed by delete, and the menu entry "Delete all
    ROIs" ([deleteRoi(list(range(0, len(self.roiCoordinates))))]), empty
    every collection and clear the selection; the saved flag, the modes
    and the draft stay as they are. *)
Theorem delete_all_empties_collection (w : RoiWindow) :
  session_run w [EvSelectAll; EvDelete]
  = Some (set_selection (set_roiCoordinates w []) []) ∧
  deleteRoi w (KeyList (seq 0 (length (roiCoordinates w))))
  = Some (set_selection (set_roiCoordinates w []) []).
Proof.
  assert (H : drop_indices (seq 0 (length (roiCoordinates w))) 0 (roiCoordinates w) = []).
  { apply drop_indices_all. intros k Hk. apply elem_of_seq. lia. }
  split; simpl; unfold delete_key, deleteRoi; simpl; rewrite H; reflexivity.
Qed.

(** ** Selecting *)

Lemma shiftLeftMouseDown_loop_cons (x y : Z) (idx : nat) (roi : Roi)
    (rest : list Roi) (w : RoiWindow) :
  shiftLeftMouseDown_loop x y idx (roi :: rest) w
  = shiftLeftMouseDown_loop x y (S idx) rest
      (if in_box x y roi then
         if decide (idx ∈ selection w) then w
         else set_selection w (selection w ++ [idx])
       else w).
Proof.
  unfold in_box. simpl. destruct (coordinates roi) as [[x1 y1] [x2 y2]]. reflexivity.
Qed.

Lemma shiftLeftMouseDown_loop_spec (x y : Z) (rois : list Roi) :
  ∀ (idx : nat) (w : RoiWindow),
    let w' := shiftLeftMouseDown_loop x y idx rois w in
    w' = set_selection w (selection w') ∧
    (∃ added, selection w' = selection w ++ added) ∧
    (NoDup (selection w) → NoDup (selection w')) ∧
    (∀ i : nat,
       i ∈ selection w' ↔
       i ∈ selection w ∨
       ∃ (k : nat) (roi : Roi),
         i = (idx + k)%nat ∧ rois !! k = Some roi ∧ in_box x y roi = true).
Proof.
  induction rois as [|roi rest IH]; intros idx w.
  - simpl. split; [destruct w; reflexivity|].
    split; [exists []; rewrite app_nil_r; reflexivity|].
    split; [auto|].
    intros i. split; [auto|]. intros [H|(k & r & _ & Hk & _)]; [exact H|discriminate].
  - intros w'. unfold w'. rewrite shiftLeftMouseDown_loop_cons.
    set (w1 := if in_box x y roi then
                 if decide (idx ∈ selection w) then w
                 else set_selection w (selection w ++ [idx])
               else w).
    destruct (IH (S idx) w1) as (Heq & (added & Hadd) & Hnd & Hmem).
    assert (H1 : w1 = set_selection w (selection w1) ∧
                 (∃ a1, selection w1 = selection w ++ a1) ∧
                 (NoDup (selection w) → NoDup (selection w1)) ∧
                 (∀ i : nat, i ∈ selection w1 ↔
                             i ∈ selection w ∨ (i = idx ∧ in_box x y roi = true))).
    { unfold w1. destruct (in_box x y roi).
      - destruct (decide (idx ∈ selection w)) as [Hin|Hnot].
        + split; [destruct w; reflexivity|].
          split; [exists []; rewrite app_nil_r; reflexivity|].
          split; [auto|]. intros i. split; [auto|].
          intros [H|[-> _]]; assumption.
        + split; [destruct w; reflexivity|].
          split; [exists [idx]; reflexivity|]. simpl.
          split.
          * intros Hn. apply NoDup_app. split; [exact Hn|].
            split; [|apply NoDup_singleton].
            intros j Hj Hj'. apply list_elem_of_singleton in Hj'. subst. contradiction.
          * intros i. rewrite elem_of_app, list_elem_of_singleton. tauto.
      - split; [destruct w; reflexivity|].
        split; [exists []; rewrite app_nil_r; reflexivity|].
        split; [auto|]. intros i. split; [auto|].
        intros [H|[_ H]]; [exact H|discriminate]. }
    destruct H1 as (Heq1 & (a1 & Hadd1) & Hnd1 & Hmem1).
    split.
    { rewrite Heq at 1. rewrite Heq1. destruct w; reflexivity. }
    split.
    { exists (a1 ++ added). rewrite Hadd, Hadd1, app_assoc. reflexivity. }
    split; [auto|].
    intros i. rewrite Hmem, Hmem1. split.
    + intros [[H|[-> Hb]]|(k & r & -> & Hk & Hb)].
      * left. exact H.
      * right. exists 0%nat, roi. rewrite Nat.add_0_r. repeat split. exact Hb.
      * right. exists (S k), r. repeat split; [lia|exact Hk|exact Hb].
    + intros [H|([|k] & r & -> & Hk & Hb)].
      * left. left. exact H.
      * left. right. simpl in Hk. injection Hk as ->.
        rewrite Nat.add_0_r. split; [reflexivity|exact Hb].
      * right. exists k, r. repeat split; [lia|exact Hk|exact Hb].
Qed.

Lemma shiftLeftMouseDown_loop_fixed (x y : Z) (rois : list Roi) :
  ∀ (idx : nat) (w : RoiWindow),
    (∀ (k : nat) (roi : Roi),
       rois !! k = Some roi → in_box x y roi = true → (idx + k)%nat ∈ selection w) →
    shiftLeftMouseDown_loop x y idx rois w = w.
Proof.
  induction rois as [|roi rest IH]; intros idx w Hall; [reflexivity|].
  rewrite shiftLeftMouseDown_loop_cons.
  assert (Hw : (if in_box x y roi then
                  if decide (idx ∈ selection w) then w
                  else set_selection w (selection w ++ [idx])
                else w) = w).
  { destruct (in_box x y roi) eqn:Hb; [|reflexivity].
    destruct (decide (idx ∈ selection w)) as [_|Hnot]; [reflexivity|].
    exfalso. apply Hnot. specialize (Hall 0%nat roi eq_refl Hb).
    rewrite Nat.add_0_r in Hall. exact Hall. }
  rewrite Hw. apply IH. intros k r Hk Hb.
  replace (S idx + k)%nat with (idx + S k)%nat by lia. apply (Hall (S k) r Hk Hb).
Qed.

(** X5. A shift-click only ever adds to the selection: the old selection
    is kept in front, the indices added are exactly those of the ROIs
    whose box holds the point and that were not selected yet, nothing but
    the selection changes, and a second shift-click at the same point
    changes nothing. *)
Theorem shift_click_is_additive (w : RoiWindow) (x y : Z) :
  shiftLeftMouseDown w x y
  = set_selection w (selection (shiftLeftMouseDown w x y)) ∧
  (∃ added, selection (shiftLeftMouseDown w x y) = selection w ++ added) ∧
  (∀ i : nat,
     i ∈ selection (shiftLeftMouseDown w x y) ↔
     i ∈ selection w ∨
     ∃ roi : Roi, roiCoordinates w !! i = Some roi ∧ in_box x y roi = true) ∧
  shiftLeftMouseDown (shiftLeftMouseDown w x y) x y = shiftLeftMouseDown w x y.
Proof.
  destruct (shiftLeftMouseDown_loop_spec x y (roiCoordinates w) 0 w)
    as (Heq & Hadd & _ & Hmem).
  fold (shiftLeftMouseDown w x y) in Heq, Hadd, Hmem.
  assert (Hmem' : ∀ i : nat,
             i ∈ selection (shiftLeftMouseDown w x y) ↔
             i ∈ selection w ∨
             ∃ roi : Roi, roiCoordinates w !! i = Some roi ∧ in_box x y roi = true).
  { intros i. rewrite Hmem. split.
    - intros [H|(k & r & -> & Hk & Hb)]; [left; exact H|right; exists r; auto].
    - intros [H|(r & Hk & Hb)]; [left; exact H|right; exists i, r; auto]. }
  split; [exact Heq|]. split; [exact Hadd|]. split; [exact Hmem'|].
  unfold shiftLeftMouseDown at 1.
  assert (Hrois : roiCoordinates (shiftLeftMouseDown w x y) = roiCoordinates w).
  { rewrite Heq. reflexivity. }
  rewrite Hrois. apply shiftLeftMouseDown_loop_fixed.
  intros k roi Hk Hb. apply Hmem'. right. exists roi. auto.
Qed.

(** ** Invariants of a session *)

Lemma rightMouseDown_loop_spec (x y : Z) (rois : list Roi) :
  ∀ (idx : nat) (w : RoiWindow),
    let w' := rightMouseDown_loop x y idx rois w in
    w' = set_selection w (selection w') ∧
    (selection w' = selection w ∨ ∃ i : nat, selection w' = [i]).
Proof.
  induction rois as [|roi rest IH]; intros idx w.
  - simpl. split; [destruct w; reflexivity|left; reflexivity].
  - simpl. destruct (coordinates roi) as [[x1 y1] [x2 y2]].
    destruct (between x1 x x2 && between y1 y y2).
    + destruct (IH (S idx) (set_selection w [idx])) as (Heq & Hsel).
      split; [rewrite Heq at 1; destruct w; reflexivity|].
      right. destruct Hsel as [Hs|[i Hs]]; rewrite Hs; eauto.
    + apply IH.
Qed.

Lemma leftMouseDown_inv (w w' : RoiWindow) (x y : Z) :
  leftMouseDown w x y = Some w' →
  roiCoordinates w' = roiCoordinates w ∧
  (selection w' = selection w ∨ selection w' = [] ∨ ∃ i : nat, selection w' = [i]).
Proof.
  unfold leftMouseDown.
  pose proof (leftMouseDown_loop_frame x y (roiCoordinates w) 0 w) as Hframe.
  simpl in Hframe. destruct Hframe as (Hrois & Hsel & _ & _).
  set (w1 := leftMouseDown_loop x y 0 (roiCoordinates w) w) in *.
  simpl. destruct (resizing w1) as [r|].
  { intros [= <-]. simpl. split; [exact Hrois|]. right; right; eauto. }
  destruct (dragging w1) as [d|].
  2:{ intros [= <-]. simpl. split; [exact Hrois|]. right; left; reflexivity. }
  match goal with
  | |- context [record_offsets ?a ?b ?c ?s ?e] =>
      destruct (record_offsets a b c s e) as [rel|]; [|discriminate]
  end.
  simpl. intros [= <-]. simpl.
  destruct (decide (d ∈ selection w1)); simpl.
  - split; [exact Hrois|]. left. exact Hsel.
  - split; [exact Hrois|]. right; right; eauto.
Qed.

Lemma Forall_list_insert (P : Roi → Prop) (l : list Roi) (i : nat) (r : Roi) :
  Forall P l → P r → Forall P (<[i := r]> l).
Proof.
  intros Hl Hr. revert i. induction Hl as [|a l Ha Hl IH]; intros i; [constructor|].
  destruct i as [|i]; simpl; constructor; auto.
Qed.

Section preserved.

(** A property of ROIs that [setRoi] and the sorting [setCoordinates]
    always establish. *)
Variable P : Roi → Prop.
Hypothesis P_setRoi : ∀ (r : Roi) (a b : point), P (Roi.setRoi r a b).
Hypothesis P_setCoordinates :
  ∀ (r r' : Roi) (i : nat) (x y : Z),
    Roi.setCoordinates r i x y true = Some r' → P r'.

Lemma drag_selection_preserves (x y : Z) (rel : RelCoords) (sel : list nat) :
  ∀ rois rois' : list Roi,
    drag_selection x y rel sel rois = Some rois' →
    length rois' = length rois ∧ (Forall P rois → Forall P rois').
Proof.
  induction sel as [|i rest IH]; intros rois rois' H.
  - injection H as <-. auto.
  - simpl in H. destruct (rois !! i) as [roi|]; [|discriminate]. simpl in H.
    destruct (rel_entry rel i) as [off|]; [|discriminate]. simpl in H.
    apply IH in H as [Hlen Hall]. rewrite length_insert in Hlen.
    split; [exact Hlen|]. intros HP. apply Hall.
    apply Forall_list_insert; [exact HP|apply P_setRoi].
Qed.

Lemma resize_roi_preserves (x y : Z) (m : mask) (rel : RelCoords) (roi roi' : Roi) :
  resize_roi x y m rel roi = Some roi' → P roi → P roi'.
Proof.
  assert (Hstep : ∀ (c : bool) (r r1 : Roi) (o : option Roi),
             (o = Some r1 → P r1) →
             (if c then o else Some r) = Some r1 → P r → P r1).
  { intros c r r1 o Ho H HP. destruct c; [auto|]. injection H as <-. exact HP. }
  unfold resize_roi. intros H HP.
  match type of H with
  | (?c ≫= ?k) = _ =>
      destruct c as [r1|] eqn:E1; [change (k r1 = Some roi') in H|discriminate H]
  end.
  cbv beta in H.
  match type of H with
  | (?c ≫= ?k) = _ =>
      destruct c as [r2|] eqn:E2; [change (k r2 = Some roi') in H|discriminate H]
  end.
  cbv beta in H.
  match type of H with
  | (?c ≫= ?k) = _ =>
      destruct c as [r3|] eqn:E3; [change (k r3 = Some roi') in H|discriminate H]
  end.
  cbv beta in H.
  eapply Hstep in E1; [|intros E|exact HP].
  2:{ destruct (Roi.getCoordinates roi 0); [|discriminate E].
      destruct (rel_component rel 1); [|discriminate E].
      eapply P_setCoordinates. exact E. }
  eapply Hstep in E2; [|intros E|exact E1].
  2:{ destruct (Roi.getCoordinates r1 1); [|discriminate E].
      destruct (rel_component rel 1); [|discriminate E].
      eapply P_setCoordinates. exact E. }
  eapply Hstep in E3; [|intros E|exact E2].
  2:{ destruct (rel_component rel 0); [|discriminate E].
      destruct (Roi.getCoordinates r2 0); [|discriminate E].
      eapply P_setCoordinates. exact E. }
  eapply Hstep in H; [exact H|intros E|exact E3].
  destruct (rel_component rel 0); [|discriminate E].
  destruct (Roi.getCoordinates r3 1); [|discriminate E].
  eapply P_setCoordinates. exact E.
Qed.

End preserved.

Lemma leftMouseUp_inv (w w' : RoiWindow) (x y : Z) :
  leftMouseUp w x y = Some w' →
  (selection w' = selection w ∨ selection w' = []) ∧
  (((resizing w ≠ None ∨ dragging w ≠ None) ∧ roiCoordinates w' = roiCoordinates w) ∨
   (resizing w = None ∧ dragging w = None ∧
    ∃ r, Roi.setCoordinates (newRoi w) 1 x y false = Some r ∧
         roiCoordinates w' = roiCoordinates w ++ [r])).
Proof.
  unfold leftMouseUp.
  destruct (resizing w) as [r|] eqn:Hr.
  { intros [= <-]. simpl. split; [right; reflexivity|].
    left. split; [left; discriminate|reflexivity]. }
  destruct (dragging w) as [d|] eqn:Hd.
  { intros [= <-]. simpl. split; [left; reflexivity|].
    left. split; [right; discriminate|reflexivity]. }
  simpl. intros [= <-]. simpl. split; [right; reflexivity|].
  right. repeat split. eexists. split; reflexivity.
Qed.

Lemma deleteRoi_preserves (P : Roi → Prop) (w w' : RoiWindow) (key : DeleteKey) :
  deleteRoi w key = Some w' →
  selection w' = [] ∧ (Forall P (roiCoordinates w) → Forall P (roiCoordinates w')).
Proof.
  destruct key as [k|l]; simpl.
  - destruct (roiCoordinates w !! k); simpl; [|discriminate].
    intros [= <-]. simpl. split; [reflexivity|]. apply Forall_delete.
  - intros [= <-]. simpl. split; [reflexivity|].
    intros H. apply Forall_forall. intros roi Hroi.
    rewrite Forall_forall in H. apply H.
    eapply elem_of_sublist; [exact Hroi|apply drop_indices_sublist].
Qed.

Section step_preserved.

Variable P : Roi → Prop.
Hypothesis P_setRoi : ∀ (r : Roi) (a b : point), P (Roi.setRoi r a b).
Hypothesis P_setCoordinates :
  ∀ (r r' : Roi) (i : nat) (x y : Z),
    Roi.setCoordinates r i x y true = Some r' → P r'.

Lemma leftMouseMove_preserves (w w' : RoiWindow) (x y : Z) :
  leftMouseMove w x y = Some w' →
  selection w' = selection w ∧
  (Forall P (roiCoordinates w) → Forall P (roiCoordinates w')).
Proof.
  unfold leftMouseMove.
  destruct (dragging w) as [d|].
  - destruct (0 <? length (selection w))%nat; [|intros [= <-]; auto].
    destruct (drag_selection x y (relativeCoordinates w) (selection w)
                (roiCoordinates w)) as [rois'|] eqn:E; [|discriminate].
    simpl. intros [= <-]. simpl. split; [reflexivity|].
    apply (drag_selection_preserves P P_setRoi _ _ _ _ _ _ E).
  - destruct (resizing w) as [[idx m]|].
    + destruct (roiCoordinates w !! idx) as [roi|] eqn:Hl; [|discriminate]. simpl.
      destruct (resize_roi x y m (relativeCoordinates w) roi) as [roi'|] eqn:E;
        [|discriminate].
      simpl. intros [= <-]. simpl. split; [reflexivity|].
      intros HP. apply Forall_list_insert; [exact HP|].
      apply (resize_roi_preserves P P_setCoordinates _ _ _ _ _ _ E).
      eapply Forall_lookup_1; eassumption.
    + simpl. intros [= <-]. auto.
Qed.

Lemma editRoi_close_preserves (w w' : RoiWindow) (k : nat) (a b c d : Z)
    (response : bool) :
  editRoi_close w k a b c d response = Some w' →
  selection w' = selection w ∧
  (Forall P (roiCoordinates w) → Forall P (roiCoordinates w')).
Proof.
  unfold editRoi_close.
  destruct (roiCoordinates w !! k) as [roi|]; [|discriminate].
  cbn [mbind option_bind].
  case_bool_decide; [intros [= <-]; auto|].
  destruct response; [|intros [= <-]; auto].
  destruct (Roi.setCoordinates roi 0 a b true) as [ra|]; [|discriminate].
  cbn [mbind option_bind].
  destruct (Roi.setCoordinates ra 1 c d true) as [rb|] eqn:E; [|discriminate].
  cbn [mbind option_bind].
  intros [= <-]. simpl. split; [reflexivity|].
  intros HP. apply Forall_list_insert; [exact HP|].
  eapply P_setCoordinates. exact E.
Qed.

(** Every event other than a draft commit and an import keeps a property
    of the collection that [setRoi] and sorting [setCoordinates]
    establish. *)
Lemma session_step_preserves (w w' : RoiWindow) (ev : SessionEvent) :
  Forall P (roiCoordinates w) →
  commits_draft w ev = false → is_import ev = false →
  session_step w ev = Some w' →
  Forall P (roiCoordinates w').
Proof.
  intros HP Hc Hi Hstep. destruct ev as [e| | | | |k|k a b c d r|p l o]; simpl in *.
  - unfold mouseEvent in Hstep. destruct (ev_type e) eqn:Ht.
    + destruct (ev_num e =? 1).
      * destruct (negb (Z.land (ev_state e) 1 =? 0)).
        -- injection Hstep as <-.
           destruct (shiftLeftMouseDown_loop_spec (ev_x e) (ev_y e)
                       (roiCoordinates w) 0 w) as (Heq & _).
           unfold shiftLeftMouseDown. rewrite Heq. exact HP.
        -- apply leftMouseDown_inv in Hstep as [Hrois _]. rewrite Hrois. exact HP.
      * destruct (ev_num e =? 3); injection Hstep as <-; [|exact HP].
        destruct (rightMouseDown_loop_spec (ev_x e) (ev_y e)
                    (roiCoordinates w) 0 w) as (Heq & _).
        unfold rightMouseDown. rewrite Heq. exact HP.
    + destruct ((ev_num e =? 1) && (Z.land (ev_state e) 1 =? 0)) eqn:Hb;
        [|injection Hstep as <-; exact HP].
      simpl in Hc.
      apply leftMouseUp_inv in Hstep as [_ [[_ Hrois]|(Hr & Hd & _)]].
      * rewrite Hrois. exact HP.
      * simpl in Hr, Hd.
        rewrite (bool_decide_eq_true_2 _ Hr), (bool_decide_eq_true_2 _ Hd) in Hc.
        discriminate Hc.
    + destruct (ev_state e =? 264).
      * apply leftMouseMove_preserves in Hstep as [_ H]. auto.
      * destruct (ev_state e =? 1032); injection Hstep as <-; exact HP.
    + injection Hstep as <-. exact HP.
  - injection Hstep as <-. exact HP.
  - injection Hstep as <-. exact HP.
  - unfold delete_key in Hstep.
    apply (deleteRoi_preserves P) in Hstep as [_ H]. auto.
  - injection Hstep as <-. exact HP.
  - change (deleteRoi w (KeyInt k) = Some w') in Hstep.
    apply (deleteRoi_preserves P) in Hstep as [_ H]. auto.
  - apply editRoi_close_preserves in Hstep as [_ H]. auto.
  - discriminate Hi.
Qed.

End step_preserved.

Lemma setCoordinates_dimensions_current (r r' : Roi) (i : nat) (x y : Z) (sort : bool) :
  Roi.setCoordinates r i x y sort = Some r' → dimensions_current r'.
Proof.
  unfold Roi.setCoordinates.
  destruct (Roi.storeCorner r i (x, y)) as [r1|]; [|discriminate].
  cbn [mbind option_bind]. intros [= <-]. apply dimensions_after_calculate.
Qed.

Lemma setCoordinates_sorted_invariant (r r' : Roi) (i : nat) (x y : Z) :
  Roi.setCoordinates r i x y true = Some r' → rectangle_invariant r'.
Proof.
  unfold Roi.setCoordinates.
  destruct (Roi.storeCorner r i (x, y)) as [r1|]; [|discriminate].
  cbn [mbind option_bind]. intros [= <-]. apply sort_then_dimensions.
Qed.

Lemma session_step_NoDup (w w' : RoiWindow) (ev : SessionEvent) :
  NoDup (selection w) → session_step w ev = Some w' → NoDup (selection w').
Proof.
  intros Hnd Hstep.
  assert (Hcases : ∀ s : list nat,
             (s = selection w ∨ s = [] ∨ ∃ i : nat, s = [i]) → NoDup s).
  { intros s [->|[->|[i ->]]]; [exact Hnd|constructor|apply NoDup_singleton]. }
  destruct ev as [e| | | | |k|k a b c d r|p l o]; simpl in Hstep.
  - unfold mouseEvent in Hstep. destruct (ev_type e).
    + destruct (ev_num e =? 1).
      * destruct (negb (Z.land (ev_state e) 1 =? 0)).
        -- injection Hstep as <-.
           destruct (shiftLeftMouseDown_loop_spec (ev_x e) (ev_y e)
                       (roiCoordinates w) 0 w) as (_ & _ & H & _).
           apply H. exact Hnd.
        -- apply leftMouseDown_inv in Hstep as [_ H]. apply Hcases. exact H.
      * destruct (ev_num e =? 3); injection Hstep as <-; [|exact Hnd].
        destruct (rightMouseDown_loop_spec (ev_x e) (ev_y e)
                    (roiCoordinates w) 0 w) as (_ & H).
        apply Hcases. destruct H as [H|H]; [left; exact H|right; right; exact H].
    + destruct ((ev_num e =? 1) && (Z.land (ev_state e) 1 =? 0));
        [|injection Hstep as <-; exact Hnd].
      apply leftMouseUp_inv in Hstep as [H _]. apply Hcases.
      destruct H as [H|H]; [left; exact H|right; left; exact H].
    + destruct (ev_state e =? 264).
      * apply (leftMouseMove_preserves (λ _, True)) in Hstep as [H _];
          [rewrite H; exact Hnd|auto|auto].
      * destruct (ev_state e =? 1032); injection Hstep as <-; exact Hnd.
    + injection Hstep as <-. exact Hnd.
  - injection Hstep as <-. exact Hnd.
  - injection Hstep as <-. simpl. apply NoDup_seq.
  - unfold delete_key in Hstep.
    apply (deleteRoi_preserves (λ _, True)) in Hstep as [H _]. rewrite H. constructor.
  - injection Hstep as <-. constructor.
  - change (deleteRoi w (KeyInt k) = Some w') in Hstep.
    apply (deleteRoi_preserves (λ _, True)) in Hstep as [H _]. rewrite H. constructor.
  - apply (editRoi_close_preserves (λ _, True)) in Hstep as [H _];
      [rewrite H; exact Hnd|auto].
  - injection Hstep as <-. unfold importRoisFile.
    destruct p; [|exact Hnd]. destruct l; [|exact Hnd].
    destruct (0 <? length (roiCoordinates w))%nat; [destruct o|]; exact Hnd.
Qed.

(** X6. Whatever events a session receives, its selection never lists an
    index twice. *)
Theorem selection_never_repeats_an_index
    (rois : list Roi) (evs : list SessionEvent) (w' : RoiWindow) :
  session_run (RoiWindow_init rois) evs = Some w' → NoDup (selection w').
Proof.
  assert (H : ∀ (l : list SessionEvent) (w : RoiWindow),
             NoDup (selection w) → session_run w l = Some w' → NoDup (selection w')).
  { induction l as [|ev rest IH]; intros w Hnd Hrun.
    - injection Hrun as <-. exact Hnd.
    - simpl in Hrun. destruct (session_step w ev) as [w1|] eqn:E; [|discriminate].
      simpl in Hrun. apply (IH w1); [|exact Hrun].
      eapply session_step_NoDup; eassumption. }
  apply H. constructor.
Qed.

(** The theorem on a session where two overlapping ROIs are shift-clicked
    twice and then all ROIs are selected. *)
Lemma selection_never_repeats_an_index_witness :
  ∃ w', session_run (RoiWindow_init [roi_square; roi_shifted])
          [EvMouse (mkEvent ButtonPress 1 1 60 60);
           EvMouse (mkEvent ButtonPress 1 1 60 60); EvSelectAll] = Some w' ∧
        NoDup (selection w').
Proof.
  destruct (session_run (RoiWindow_init [roi_square; roi_shifted])
              [EvMouse (mkEvent ButtonPress 1 1 60 60);
               EvMouse (mkEvent ButtonPress 1 1 60 60); EvSelectAll])
    as [w'|] eqn:E.
  - exists w'. split; [reflexivity|].
    exact (selection_never_repeats_an_index _ _ _ E).
  - vm_compute in E. discriminate E.
Defined.

(** X7. The width and height stored in every ROI of the collection always
    equal its corner differences: if that holds when the session starts
    and for the lists it imports, it holds after any run of events. *)
Theorem stored_sizes_stay_current
    (w w' : RoiWindow) (evs : list SessionEvent) :
  Forall dimensions_current (roiCoordinates w) →
  imports_consistent evs →
  session_run w evs = Some w' →
  Forall dimensions_current (roiCoordinates w').
Proof.
  revert w. induction evs as [|ev rest IH]; intros w Hw Himp Hrun.
  - injection Hrun as <-. exact Hw.
  - simpl in Hrun. destruct (session_step w ev) as [w1|] eqn:E; [|discriminate].
    simpl in Hrun. apply Forall_cons in Himp as [Hev Hrest].
    apply (IH w1); [|exact Hrest|exact Hrun]. clear IH Hrun Hrest.
    destruct (is_import ev) eqn:Hi.
    { destruct ev; try discriminate Hi. simpl in E. injection E as <-.
      unfold importRoisFile. destruct path; [|exact Hw].
      destruct loaded as [l|]; [|exact Hw].
      destruct (0 <? length (roiCoordinates w))%nat; [destruct option|]; simpl;
        try exact Hev. apply Forall_app_2; assumption. }
    destruct (commits_draft w ev) eqn:Hc.
    2:{ eapply (session_step_preserves dimensions_current); try eassumption.
        - intros r a b. apply dimensions_after_calculate.
        - intros r r' i x y. apply setCoordinates_dimensions_current. }
    destruct ev as [e| | | | | | |]; try discriminate Hc.
    simpl in Hc, E. unfold mouseEvent in E.
    destruct (ev_type e); try discriminate Hc.
    apply andb_prop in Hc as [Hc _]. apply andb_prop in Hc as [Hc _].
    rewrite Hc in E.
    apply leftMouseUp_inv in E as [_ [[_ Hrois]|(_ & _ & r & Hr & Hrois)]];
      rewrite Hrois; [exact Hw|].
    apply Forall_app_2; [exact Hw|]. apply Forall_singleton.
    eapply setCoordinates_dimensions_current. exact Hr.
Qed.

(** The theorem on a session that drafts a ROI from bottom right to top
    left and then imports one. *)
Lemma stored_sizes_stay_current_witness :
  ∃ w', session_run (RoiWindow_init [roi_square])
          [down 250 260; move 210 210; up 210 210;
           EvImport true (Some [roi_wide]) false] = Some w' ∧
        Forall dimensions_current (roiCoordinates w').
Proof.
  destruct (session_run (RoiWindow_init [roi_square])
              [down 250 260; move 210 210; up 210 210;
               EvImport true (Some [roi_wide]) false]) as [w'|] eqn:E.
  - exists w'. split; [reflexivity|].
    refine (stored_sizes_stay_current _ _ _ _ _ E).
    + repeat constructor.
    + unfold imports_consistent. repeat constructor.
  - vm_compute in E. discriminate E.
Defined.

(** X8. Dragging, resizing, editing, deleting and selecting never put an
    un-normalized ROI into the collection: every event other than the
    release that commits a draft and an import keeps all ROIs normalized
    with non-negative, current width and height. *)
Theorem only_commit_and_import_can_unnormalize
    (w w' : RoiWindow) (ev : SessionEvent) :
  Forall rectangle_invariant (roiCoordinates w) →
  commits_draft w ev = false → is_import ev = false →
  session_step w ev = Some w' →
  Forall rectangle_invariant (roiCoordinates w').
Proof.
  apply session_step_preserves.
  - intros r a b. apply sort_then_dimensions.
  - intros r r' i x y. apply setCoordinates_sorted_invariant.
Qed.

(** The theorem on a resize that drags the top edge of [roi_wide] below
    its bottom edge. *)
Lemma only_commit_and_import_can_unnormalize_witness :
  ∃ w', session_step resize_start (move 60 100) = Some w' ∧
        Forall rectangle_invariant (roiCoordinates w').
Proof.
  eexists. split; [reflexivity|].
  refine (only_commit_and_import_can_unnormalize resize_start _ (move 60 100)
            _ eq_refl eq_refl eq_refl).
  repeat constructor; simpl; lia.
Defined.

(** ** Drawing a new ROI *)

Lemma session_step_down (w : RoiWindow) (x y : Z) :
  session_step w (down x y) = leftMouseDown (set_saved w false) x y.
Proof. reflexivity. Qed.

Lemma session_step_up (w : RoiWindow) (x y : Z) :
  session_step w (up x y) = leftMouseUp (set_saved w false) x y.
Proof. reflexivity. Qed.

(** A press that hits no ROI, with no mode active: only the first corner of
    the draft is stored and the selection is cleared. *)
Lemma leftMouseDown_no_hit (w : RoiWindow) (x y : Z) :
  resizing w = None → dragging w = None →
  (∀ roi : Roi, roi ∈ roiCoordinates w → classify x y roi = NoHit) →
  leftMouseDown w x y
  = Some (resetSelection
            (set_newRoi w
               {| coordinates := ((x, y), snd (coordinates (newRoi w)));
                  height := snd (snd (coordinates (newRoi w))) - y;
                  width := fst (snd (coordinates (newRoi w))) - x;
                  status := status (newRoi w) |})).
Proof.
  intros Hr Hd Hno. unfold leftMouseDown. rewrite leftMouseDown_loop_spec.
  rewrite last_handle_none, last_body_none.
  - simpl. rewrite Hr, Hd.
    destruct w as [rois [[c0 [x1 y1]] h wd st] rel sv dr rs sel]. reflexivity.
  - intros j roi_j Hj. rewrite (Hno roi_j); [discriminate|].
    eapply list_elem_of_lookup_2. exact Hj.
  - intros j roi_j Hj. rewrite (Hno roi_j); [reflexivity|].
    eapply list_elem_of_lookup_2. exact Hj.
Qed.

(** Pointer-moves while a draft is in progress: only the draft changes;
    its first corner stays, its flag is raised by the first move. *)
Lemma draft_moves (pts : list (Z * Z)) :
  ∀ w : RoiWindow,
    resizing w = None → dragging w = None →
    ∃ w', session_run w (moves pts) = Some w' ∧
      resizing w' = None ∧ dragging w' = None ∧
      roiCoordinates w' = roiCoordinates w ∧ saved w' = saved w ∧
      selection w' = selection w ∧
      fst (coordinates (newRoi w')) = fst (coordinates (newRoi w)) ∧
      status (newRoi w') = match pts with [] => status (newRoi w) | _ => true end.
Proof.
  induction pts as [|[px py] rest IH]; intros w Hr Hd.
  - exists w. repeat split; assumption.
  - set (w1 := set_newRoi w
                 {| coordinates := (fst (coordinates (newRoi w)), (px, py));
                    height := py - snd (fst (coordinates (newRoi w)));
                    width := px - fst (fst (coordinates (newRoi w)));
                    status := true |}).
    assert (Hstep : leftMouseMove w px py = Some w1).
    { unfold leftMouseMove, w1. rewrite Hd, Hr.
      destruct (newRoi w) as [[[? ?] [? ?]] ? ? ?]. reflexivity. }
    unfold moves. cbn [map session_run fst snd].
    rewrite session_step_move, Hstep. cbn [mbind option_bind].
    destruct (IH w1 Hr Hd) as (w' & Hrun & Hr' & Hd' & Hrois & Hsv & Hsel & Hc & Hst).
    exists w'. split; [exact Hrun|]. repeat split; try assumption.
    rewrite Hst. destruct rest; reflexivity.
Qed.

(** X9. With no mode active, a press at a point that hits no ROI, any
    pointer-moves and a release append exactly one ROI whose stored
    corners are the press point and the release point in that order,
    whose width and height are the signed differences release minus
    press, and which carries the draft flag when at least one move
    occurred; the existing ROIs are untouched, the selection is empty, no
    mode is active and the session is marked unsaved.  In particular a
    plain click appends a ROI of width 0 and height 0. *)
Theorem draft_spans_press_and_release
    (w : RoiWindow) (x0 y0 x1 y1 : Z) (pts : list (Z * Z)) :
  resizing w = None → dragging w = None →
  (∀ roi : Roi, roi ∈ roiCoordinates w → classify x0 y0 roi = NoHit) →
  ∃ w',
    session_run w (down x0 y0 :: moves pts ++ [up x1 y1]) = Some w' ∧
    roiCoordinates w'
    = roiCoordinates w
      ++ [ {| coordinates := ((x0, y0), (x1, y1));
              height := y1 - y0; width := x1 - x0;
              status := match pts with [] => status (newRoi w) | _ => true end |} ] ∧
    selection w' = [] ∧ dragging w' = None ∧ resizing w' = None ∧
    saved w' = false ∧ Roi.getStatus (newRoi w') = false.
Proof.
  intros Hr Hd Hno.
  cbn [session_run]. rewrite session_step_down.
  rewrite (leftMouseDown_no_hit (set_saved w false) x0 y0 Hr Hd Hno).
  cbn [mbind option_bind].
  set (w1 := resetSelection _).
  destruct (draft_moves pts w1 Hr Hd)
    as (w2 & Hrun & Hr2 & Hd2 & Hrois & Hsv & Hsel & Hc & Hst).
  rewrite session_run_app, Hrun. cbn [mbind option_bind session_run].
  rewrite session_step_up.
  rewrite (leftMouseUp_drafting (set_saved w2 false) x1 y1 Hr2 Hd2).
  cbn [mbind option_bind].
  eexists. split; [reflexivity|]. simpl.
  rewrite Hrois, Hc, Hst. simpl. repeat split.
Qed.

(** The theorem for a plain click at (300,300) beside [roi_square]. *)
Lemma draft_spans_press_and_release_witness :
  ∃ w',
    session_run (RoiWindow_init [roi_square]) (down 300 300 :: moves [] ++ [up 300 300])
    = Some w' ∧
    roiCoordinates w'
    = [roi_square;
       {| coordinates := ((300, 300), (300, 300)); height := 0; width := 0;
          status := false |}].
Proof.
  destruct (draft_spans_press_and_release (RoiWindow_init [roi_square])
              300 300 300 300 [] eq_refl eq_refl) as (w' & Hrun & Hrois & _).
  - intros roi Hroi. apply list_elem_of_singleton in Hroi. subst. reflexivity.
  - exists w'. split; [exact Hrun|exact Hrois].
Defined.

(** X10. Escape during a drag clears the selection but does not leave the
    dragging mode: the pointer-moves that follow move nothing, and only
    the release ends the drag. *)
Theorem escape_freezes_drag
    (w : RoiWindow) (d : nat) (pts : list (Z * Z)) (x y : Z) :
  dragging w = Some d → resizing w = None →
  session_run w (EvEscape :: moves pts) = Some (escape w) ∧
  dragging (escape w) = Some d ∧
  roiCoordinates (escape w) = roiCoordinates w ∧
  session_run w (EvEscape :: moves pts ++ [up x y])
  = Some (set_dragging (set_saved (escape w) false) None).
Proof.
  intros Hd Hr.
  assert (Hmoves : ∀ l : list (Z * Z), session_run (escape w) (moves l) = Some (escape w)).
  { induction l as [|[px py] rest IH]; [reflexivity|].
    unfold moves. cbn [map session_run fst snd]. rewrite session_step_move.
    unfold leftMouseMove. simpl dragging. rewrite Hd. simpl. exact IH. }
  split; [cbn [session_run session_step mbind option_bind]; apply Hmoves|].
  split; [exact Hd|]. split; [reflexivity|].
  cbn [session_run session_step mbind option_bind].
  rewrite session_run_app, Hmoves. cbn [mbind option_bind session_run].
  rewrite session_step_up. unfold leftMouseUp. simpl. rewrite Hr, Hd. reflexivity.
Qed.

(** The theorem on [drag_start], where ROI 0 is being dragged. *)
Lemma escape_freezes_drag_witness :
  session_run drag_start (EvEscape :: moves [(70, 70); (90, 95)])
  = Some (escape drag_start) ∧
  roiCoordinates (escape drag_start) = [roi_square; roi_apart].
Proof.
  destruct (escape_freezes_drag drag_start 0 [(70, 70); (90, 95)] 0 0)
    as (Hrun & _ & Hrois & _).
  - vm_compute. reflexivity.
  - vm_compute. reflexivity.
  - split; [exact Hrun|]. rewrite Hrois. vm_compute. reflexivity.
Defined.

(** ** The hover cursor *)

(** The chain of [mouseMove] is the chain of [leftMouseDown]: the cursor
    it configures is the one of the zone that a press would hit. *)
Lemma mouseMove_body_classify (x y : Z) (roi : Roi) (st : string * bool) :
  mouseMove_body x y roi st
  = match cursor_of_hit (classify x y roi) with
    | Some c => (c, true)
    | None => st
    end ∧
  (cursor_of_hit (classify x y roi) = None ↔ classify x y roi = NoHit).
Proof.
  unfold mouseMove_body, classify, zones_by_precedence.
  destruct (coordinates roi) as [[x1 y1] [x2 y2]].
  change (radius * 2) with 20. change radius with 10.
  unfold first_match, in_zone; simpl.
  repeat (match goal with
          | |- context [if ?c then _ else _] =>
              destruct c; [split; [reflexivity|split; discriminate]|]
          end).
  split; [reflexivity|split; reflexivity].
Qed.

Lemma last_hit_cursor (x y : Z) (rois : list Roi) (h : Hit) :
  last_hit x y rois = Some h → ∃ c, cursor_of_hit h = Some c.
Proof.
  induction rois as [|roi rest IH]; [discriminate|].
  simpl. destruct (last_hit x y rest) as [h'|].
  - intros [= <-]. apply IH. reflexivity.
  - destruct (mouseMove_body_classify x y roi ("", false)) as [_ Hnone].
    destruct (cursor_of_hit (classify x y roi)) as [c|] eqn:Hc.
    + intros H. exists c.
      destruct (classify x y roi); [injection H as <-; exact Hc
                                  |injection H as <-; exact Hc|discriminate H].
    + rewrite (proj1 Hnone eq_refl). discriminate.
Qed.

Lemma mouseMove_loop_spec (x y : Z) (rois : list Roi) :
  ∀ st : string * bool,
    mouseMove_loop x y rois st
    = match last_hit x y rois ≫= cursor_of_hit with
      | Some c => (c, true)
      | None => st
      end.
Proof.
  induction rois as [|roi rest IH]; intros st; [reflexivity|].
  simpl mouseMove_loop. rewrite IH. simpl last_hit.
  destruct (last_hit x y rest) as [h|] eqn:Hl.
  - destruct (last_hit_cursor x y rest h Hl) as [c Hc].
    cbn [mbind option_bind]. rewrite Hc. reflexivity.
  - cbn [mbind option_bind].
    destruct (mouseMove_body_classify x y roi st) as [Hbody Hnone]. rewrite Hbody.
    destruct (classify x y roi) eqn:Hcl; cbn [mbind option_bind]; try reflexivity.
Qed.

Lemma last_hit_none (x y : Z) (rois : list Roi) :
  last_hit x y rois = None ↔ ∀ roi : Roi, roi ∈ rois → classify x y roi = NoHit.
Proof.
  induction rois as [|r rest IH]; simpl.
  - split; [intros _ roi H; inversion H|reflexivity].
  - destruct (last_hit x y rest) as [h|].
    + split; [discriminate|]. intros H.
      assert (Hrest : ∀ roi : Roi, roi ∈ rest → classify x y roi = NoHit).
      { intros roi Hroi. apply H. apply list_elem_of_further. exact Hroi. }
      apply IH in Hrest. discriminate Hrest.
    + split.
      * intros H roi Hroi. apply elem_of_cons in Hroi as [->|Hroi].
        -- destruct (classify x y r); [discriminate|discriminate|reflexivity].
        -- apply (proj1 IH eq_refl). exact Hroi.
      * intros H. rewrite (H r (list_elem_of_here _ _)). reflexivity.
Qed.

Lemma last_hit_found (x y : Z) (rois : list Roi) :
  ∀ (i : nat) (roi : Roi),
    rois !! i = Some roi → classify x y roi ≠ NoHit →
    (∀ (j : nat) (roi_j : Roi),
       (i < j)%nat → rois !! j = Some roi_j → classify x y roi_j = NoHit) →
    last_hit x y rois = Some (classify x y roi).
Proof.
  induction rois as [|r rest IH]; intros i roi Hi Hc Hlast; [discriminate|].
  simpl. destruct i as [|i]; simpl in Hi.
  - injection Hi as ->.
    assert (Hrest : last_hit x y rest = None).
    { apply last_hit_none. intros roi' Hroi'.
      apply list_elem_of_lookup_1 in Hroi' as [j Hj].
      apply (Hlast (S j) roi'); [lia|exact Hj]. }
    rewrite Hrest. destruct (classify x y roi); [reflexivity|reflexivity|contradiction].
  - rewrite (IH i roi Hi Hc); [reflexivity|].
    intros j roi_j Hj Hl. apply (Hlast (S j) roi_j); [lia|exact Hl].
Qed.

Lemma last_handle_none_inv (x y : Z) (rois : list Roi) :
  ∀ idx : nat,
    last_handle x y idx rois = None →
    ∀ roi : Roi, roi ∈ rois → is_handle (classify x y roi) = false.
Proof.
  induction rois as [|r rest IH]; intros idx H roi Hroi; [inversion Hroi|].
  simpl in H. destruct (last_handle x y (S idx) rest) as [p|] eqn:E; [discriminate|].
  apply elem_of_cons in Hroi as [->|Hroi].
  - destruct (classify x y r); [discriminate|reflexivity|reflexivity].
  - apply (IH (S idx) E). exact Hroi.
Qed.

Lemma last_body_none_inv (x y : Z) (rois : list Roi) :
  ∀ idx : nat,
    last_body x y idx rois = None →
    ∀ roi : Roi, roi ∈ rois → classify x y roi ≠ BodyHit.
Proof.
  induction rois as [|r rest IH]; intros idx H roi Hroi; [inversion Hroi|].
  simpl in H. destruct (last_body x y (S idx) rest) as [p|] eqn:E; [discriminate|].
  apply elem_of_cons in Hroi as [->|Hroi].
  - destruct (classify x y r); [discriminate|discriminate|discriminate].
  - apply (IH (S idx) E). exact Hroi.
Qed.

Lemma cursor_names_differ_from_default (h : Hit) (c : string) :
  cursor_of_hit h = Some c → c ≠ defaultCursor.
Proof.
  destruct h as [[[[l t] r] b] rx ry| |]; simpl; [|intros [= <-]; discriminate|discriminate].
  destruct l as [|[?|?|]|]; destruct t as [|[?|?|]|]; destruct r as [|[?|?|]|];
    destruct b as [|[?|?|]|]; simpl; try discriminate; intros [= <-]; discriminate.
Qed.

(** What the cursor is after a hover: the cursor of the last ROI of the
    collection that the point hits, the cross-hair when it hits none. *)
Lemma mouseMove_cursor_spec (cursor : string) (rois : list Roi) (x y : Z) :
  mouseMove_cursor cursor rois x y
  = default defaultCursor (last_hit x y rois ≫= cursor_of_hit).
Proof.
  unfold mouseMove_cursor. rewrite mouseMove_loop_spec.
  destruct (last_hit x y rois ≫= cursor_of_hit); reflexivity.
Qed.

(** X11. With no mode active, hovering shows the cross-hair cursor
    exactly at the points where a press would start a new ROI, that is
    where the press enters neither the resizing nor the dragging mode. *)
Theorem crosshair_iff_press_starts_draft
    (w : RoiWindow) (cursor : string) (x y : Z) :
  resizing w = None → dragging w = None →
  (∀ k : nat, k ∈ selection w → (k < length (roiCoordinates w))%nat) →
  (mouseMove_cursor cursor (roiCoordinates w) x y = defaultCursor ↔
   ∃ w', leftMouseDown w x y = Some w' ∧ resizing w' = None ∧ dragging w' = None).
Proof.
  intros Hr Hd Hsel. rewrite mouseMove_cursor_spec. split.
  - intros Hcur.
    assert (Hnone : last_hit x y (roiCoordinates w) = None).
    { destruct (last_hit x y (roiCoordinates w)) as [h|] eqn:Hl; [|reflexivity].
      destruct (last_hit_cursor _ _ _ _ Hl) as [c Hc].
      cbn [mbind option_bind] in Hcur. rewrite Hc in Hcur. simpl in Hcur.
      exfalso. exact (cursor_names_differ_from_default h c Hc Hcur). }
    rewrite last_hit_none in Hnone.
    rewrite (leftMouseDown_no_hit w x y Hr Hd Hnone).
    eexists. split; [reflexivity|]. split; assumption.
  - intros (w' & Hdown & Hr' & Hd').
    destruct (leftMouseDown_idle w x y Hr Hd Hsel) as (w'' & Hdown' & Hspec).
    assert (w'' = w') by congruence. subst w''.
    destruct (last_handle x y 0 (roiCoordinates w)) as [[[[i m] rx] ry]|] eqn:Hh.
    { destruct Hspec as (Hres & _). congruence. }
    destruct Hspec as [_ Hspec].
    destruct (last_body x y 0 (roiCoordinates w)) as [b|] eqn:Hb.
    { destruct Hspec as (Hdr & _). congruence. }
    assert (Hnone : last_hit x y (roiCoordinates w) = None).
    { apply last_hit_none. intros roi Hroi.
      pose proof (last_handle_none_inv _ _ _ _ Hh roi Hroi) as H1.
      pose proof (last_body_none_inv _ _ _ _ Hb roi Hroi) as H2.
      destruct (classify x y roi); [discriminate H1|contradiction|reflexivity]. }
    rewrite Hnone. reflexivity.
Qed.

(** The theorem beside [roi_square], at (300,300). *)
Lemma crosshair_iff_press_starts_draft_witness :
  mouseMove_cursor "fleur" [roi_square] 300 300 = "crosshair" ∧
  ∃ w', leftMouseDown (RoiWindow_init [roi_square]) 300 300 = Some w' ∧
        resizing w' = None ∧ dragging w' = None.
Proof.
  assert (Hsel : ∀ k : nat, k ∈ selection (RoiWindow_init [roi_square]) →
                            (k < length (roiCoordinates (RoiWindow_init [roi_square])))%nat).
  { intros k Hk. inversion Hk. }
  split; [reflexivity|].
  apply (crosshair_iff_press_starts_draft (RoiWindow_init [roi_square]) "fleur"
           300 300 eq_refl eq_refl Hsel).
  reflexivity.
Defined.

(** X12. When the last ROI of the collection that the point hits is hit
    on a handle, the hover cursor is the cursor of that handle and a
    press resizes that ROI with the handle's mask. *)
Theorem cursor_announces_the_resize
    (w : RoiWindow) (cursor : string) (x y : Z) (i : nat) (roi : Roi)
    (m : mask) (rx ry : Z) :
  roiCoordinates w !! i = Some roi →
  classify x y roi = HandleHit m rx ry →
  (∀ (j : nat) (roi_j : Roi),
     (i < j)%nat → roiCoordinates w !! j = Some roi_j → classify x y roi_j = NoHit) →
  cursor_of_hit (HandleHit m rx ry)
  = Some (mouseMove_cursor cursor (roiCoordinates w) x y) ∧
  ∃ w', leftMouseDown w x y = Some w' ∧ resizing w' = Some (i, m) ∧
        selection w' = [i].
Proof.
  intros Hi Hc Hlast. split.
  - rewrite mouseMove_cursor_spec.
    rewrite (last_hit_found x y _ i roi Hi); [|rewrite Hc; discriminate|exact Hlast].
    rewrite Hc. cbn [mbind option_bind].
    destruct (mouseMove_body_classify x y roi ("", false)) as [_ Hnone].
    rewrite Hc in Hnone.
    destruct (cursor_of_hit (HandleHit m rx ry)) as [c|]; [reflexivity|].
    destruct Hnone as [Hnone _]. discriminate (Hnone eq_refl).
  - unfold leftMouseDown. rewrite leftMouseDown_loop_spec.
    rewrite (last_handle_found x y _ 0 i roi m rx ry Hi Hc).
    + destruct (last_body x y 0 (roiCoordinates w));
        (eexists; split; [reflexivity|]); split; reflexivity.
    + intros j roi_j Hj Hl. rewrite (Hlast j roi_j Hj Hl). reflexivity.
Qed.

(** The theorem at (50,50), the top-left handle of [roi_far], the last
    ROI of the collection. *)
Lemma cursor_announces_the_resize_witness :
  mouseMove_cursor "crosshair" [roi_square; roi_far] 50 50 = "top_left_corner" ∧
  ∃ w', leftMouseDown (RoiWindow_init [roi_square; roi_far]) 50 50 = Some w' ∧
        resizing w' = Some (1%nat, (1, 1, 0, 0)).
Proof.
  destruct (cursor_announces_the_resize (RoiWindow_init [roi_square; roi_far])
              "crosshair" 50 50 1 roi_far (1, 1, 0, 0) 0 0 eq_refl eq_refl)
    as (Hcur & w' & Hdown & Hres & _).
  - intros [|[|j]] roi_j Hlt Hl; simpl in Hl; try discriminate; lia.
  - split; [|exists w'; split; [exact Hdown|exact Hres]].
    change (Some "top_left_corner"
            = Some (mouseMove_cursor "crosshair" [roi_square; roi_far] 50 50)) in Hcur.
    congruence.
Defined.

(** X13. The cursor can announce a move where a press resizes: when the
    last ROI that the point hits is hit in its body while an earlier ROI
    is hit on a handle, hovering shows the move cursor, yet the press
    resizes the earlier ROI (and records the later one as dragged). *)
Theorem cursor_can_disagree_with_press
    (w : RoiWindow) (cursor : string) (x y : Z) (i k : nat) (roi_i roi_k : Roi)
    (m : mask) (rx ry : Z) :
  roiCoordinates w !! i = Some roi_i →
  classify x y roi_i = HandleHit m rx ry →
  (∀ (j : nat) (roi_j : Roi),
     (i < j)%nat → roiCoordinates w !! j = Some roi_j →
     is_handle (classify x y roi_j) = false) →
  roiCoordinates w !! k = Some roi_k →
  classify x y roi_k = BodyHit →
  (∀ (j : nat) (roi_j : Roi),
     (k < j)%nat → roiCoordinates w !! j = Some roi_j → classify x y roi_j = NoHit) →
  mouseMove_cursor cursor (roiCoordinates w) x y = "fleur" ∧
  ∃ w', leftMouseDown w x y = Some w' ∧ resizing w' = Some (i, m) ∧
        dragging w' = Some k ∧ selection w' = [i].
Proof.
  intros Hi Hci Hlasti Hk Hck Hlastk. split.
  - rewrite mouseMove_cursor_spec.
    rewrite (last_hit_found x y _ k roi_k Hk); [|rewrite Hck; discriminate|exact Hlastk].
    rewrite Hck. reflexivity.
  - unfold leftMouseDown. rewrite leftMouseDown_loop_spec.
    rewrite (last_handle_found x y _ 0 i roi_i m rx ry Hi Hci Hlasti).
    rewrite (last_body_found x y _ 0 k roi_k Hk Hck).
    + eexists. split; [reflexivity|]. repeat split.
    + intros j roi_j Hj Hl. rewrite (Hlastk j roi_j Hj Hl). discriminate.
Qed.

(** The theorem at (50,50) on [roi_far] followed by [roi_square]: the
    point is on the top-left handle of the first and in the body of the
    second. *)
Lemma cursor_can_disagree_with_press_witness :
  mouseMove_cursor "crosshair" [roi_far; roi_square] 50 50 = "fleur" ∧
  ∃ w', leftMouseDown (RoiWindow_init [roi_far; roi_square]) 50 50 = Some w' ∧
        resizing w' = Some (0%nat, (1, 1, 0, 0)) ∧ dragging w' = Some 1%nat.
Proof.
  destruct (cursor_can_disagree_with_press (RoiWindow_init [roi_far; roi_square])
              "crosshair" 50 50 0 1 roi_far roi_square (1, 1, 0, 0) 0 0
              eq_refl eq_refl)
    as (Hcur & w' & Hdown & Hres & Hdr & _).
  - intros [|[|j]] roi_j Hlt Hl; simpl in Hl; try discriminate; try lia.
    injection Hl as <-. reflexivity.
  - reflexivity.
  - reflexivity.
  - intros [|[|j]] roi_j Hlt Hl; simpl in Hl; try discriminate; lia.
  - split; [exact Hcur|]. exists w'. repeat split; assumption.
Defined.

(** ** The batch loop, continued *)

Lemma batch_jobs_length (stem : string → string) (path_join : string → string → string)
    (output_folder : string) (boleanFilter : Z) (textFilter : string)
    (roi_dict : list (string * list Roi)) :
  length (batch_jobs stem path_join output_folder boleanFilter textFilter roi_dict)
  = total_crops_of roi_dict.
Proof.
  assert (Hv : ∀ (v : string) (rois : list Roi) (i : nat),
             length (video_jobs stem path_join output_folder boleanFilter textFilter
                       v i rois) = length rois).
  { intros v rois. induction rois as [|r rest IH]; intros i; simpl; [reflexivity|].
    rewrite IH. reflexivity. }
  induction roi_dict as [|[v rois] rest IH]; simpl; [reflexivity|].
  rewrite length_app, Hv, IH. reflexivity.
Qed.

Lemma progress_from_bounds (r n total k t : nat) :
  (k, t) ∈ progress_from r n total → (r < k ≤ r + n)%nat ∧ t = total.
Proof.
  unfold progress_from. intros H. apply list_elem_of_fmap in H as (j & Heq & Hj).
  injection Heq as -> ->. apply elem_of_seq in Hj. lia.
Qed.

(** X14. When every directory can be created (a video is selected, the
    dictionary is not empty, a folder is chosen), the batch runs to its
    end whatever jobs fail: it submits one job per ROI of every video in
    dictionary order, as many as the total computed up front; every job
    is accounted for, either counted as completed or reported by one
    error message; and every progress update carries a completed count
    between 1 and that total. *)
Theorem batch_accounts_for_every_job
    (stem : string → string) (path_join : string → string → string)
    (makedirs_ok : string → bool) (ffmpeg_run : Job → bool)
    (output_folder : string) (boleanFilter : Z) (textFilter : string)
    (working_video_path : string) (roi_dict : list (string * list Roi))
    (existing : list string) :
  (∀ p : string, makedirs_ok p = true) →
  working_video_path ≠ "" → roi_dict ≠ [] → output_folder ≠ "" →
  ∃ st,
    crop_video stem path_join makedirs_ok ffmpeg_run output_folder boleanFilter
      textFilter working_video_path roi_dict existing = (Finished, st) ∧
    transcoder_jobs (trace st)
    = batch_jobs stem path_join output_folder boleanFilter textFilter roi_dict ∧
    length (transcoder_jobs (trace st)) = total_crops_of roi_dict ∧
    (rendered_video st + length (error_messages (trace st)))%nat
    = total_crops_of roi_dict ∧
    length (progress_updates (trace st)) = rendered_video st ∧
    (∀ k t : nat,
       (k, t) ∈ progress_updates (trace st) →
       (1 ≤ k ≤ total_crops_of roi_dict)%nat ∧ t = total_crops_of roi_dict).
Proof.
  intros Hmk Hv Hd Ho.
  destruct (crop_video_report stem path_join makedirs_ok ffmpeg_run output_folder
              boleanFilter textFilter Hmk working_video_path roi_dict existing
              Hv Hd Ho) as (st & Hrun & Hjobs & Hdone & Hprog & Herr & _).
  pose proof (batch_jobs_length stem path_join output_folder boleanFilter textFilter
                roi_dict) as Hlen.
  pose proof (succeeded_failed_length ffmpeg_run
                (batch_jobs stem path_join output_folder boleanFilter textFilter
                   roi_dict)) as Hsum.
  exists st. split; [exact Hrun|]. split; [exact Hjobs|].
  split; [rewrite Hjobs; exact Hlen|].
  split; [rewrite Hdone, Herr, Hsum; exact Hlen|].
  split.
  - rewrite Hprog, Hdone. unfold progress_from. rewrite length_fmap, length_seq.
    reflexivity.
  - intros k t Hin. rewrite Hprog in Hin.
    apply progress_from_bounds in Hin as [Hk Ht]. split; [|exact Ht]. lia.
Qed.

(** The theorem in the world of [example_run]. *)
Lemma batch_accounts_for_every_job_witness :
  ∃ st, example_run = (Finished, st) ∧
        (rendered_video st + length (error_messages (trace st)))%nat = 3%nat.
Proof.
  destruct (batch_accounts_for_every_job (λ p, p) (λ a b, a +:+ "/" +:+ b)
              (λ _, true) (λ j, negb (bool_decide (job_input j = "b.mp4")))
              "out" 0 "" "a.mp4"
              [("a.mp4", [roi_square; roi_far]); ("b.mp4", [roi_wide])] [])
    as (st & Hrun & _ & _ & Hsum & _).
  - reflexivity.
  - discriminate.
  - discriminate.
  - discriminate.
  - exists st. split; [exact Hrun|exact Hsum].
Defined.

Section batch_failures.

Variable stem : string → string.
Variable path_join : string → string → string.
Variable makedirs_ok : string → bool.
Variable ffmpeg_run : Job → bool.
Variable output_folder : string.
Variable boleanFilter : Z.
Variable textFilter : string.

Lemma crop_videos_no_directory (total : nat) (items : list (string * list Roi)) :
  ∀ st : LoopState,
    dirs st = [] →
    (∀ p : string, makedirs_ok p = false) →
    crop_videos stem path_join makedirs_ok ffmpeg_run output_folder boleanFilter
      textFilter total items st
    = match first_with_rois items with
      | Some v =>
          inr (emit (emit (emit st (OpenCapture v))
                       (MakeDirs (subfolder_of stem path_join output_folder v)))
                 (ShowError "Error Creating Directory"))
      | None => inl st
      end.
Proof.
  induction items as [|[v rois] rest IH]; intros st Hdirs Hmk; [reflexivity|].
  destruct rois as [|roi rois']; cbn [crop_videos first_with_rois]; [apply IH; assumption|].
  cbn [crop_rois]. simpl dirs. rewrite Hdirs.
  rewrite bool_decide_eq_false_2 by (intros H; inversion H).
  rewrite Hmk. reflexivity.
Qed.

End batch_failures.

(** X15. A directory that cannot be created stops the whole batch: when
    no output directory exists yet and none can be created, the batch
    opens the first video that has ROIs, tries to create its folder,
    shows one error and returns.  No job is submitted for any video, the
    capture that was opened is not released and the progress window is
    not closed. *)
Theorem batch_stops_when_directory_cannot_be_made
    (stem : string → string) (path_join : string → string → string)
    (makedirs_ok : string → bool) (ffmpeg_run : Job → bool)
    (output_folder : string) (boleanFilter : Z) (textFilter : string)
    (working_video_path : string) (roi_dict : list (string * list Roi))
    (v : string) :
  (∀ p : string, makedirs_ok p = false) →
  working_video_path ≠ "" → output_folder ≠ "" →
  first_with_rois roi_dict = Some v →
  crop_video stem path_join makedirs_ok ffmpeg_run output_folder boleanFilter
    textFilter working_video_path roi_dict []
  = (Returned,
     mkLoopState [] 0
       [StatusReset; ShowProgressBar; OpenCapture v;
        MakeDirs (subfolder_of stem path_join output_folder v);
        ShowError "Error Creating Directory"]).
Proof.
  intros Hmk Hv Ho Hfirst. unfold crop_video.
  rewrite (bool_decide_eq_false_2 _ Hv), (bool_decide_eq_false_2 _ Ho).
  destruct roi_dict as [|item items]; [discriminate Hfirst|].
  change (length (item :: items) <? 1)%nat with false. cbv iota.
  rewrite (crop_videos_no_directory stem path_join makedirs_ok ffmpeg_run
             output_folder boleanFilter textFilter _ _
             (emit (emit (mkLoopState [] 0 []) StatusReset) ShowProgressBar)
             eq_refl Hmk).
  rewrite Hfirst. reflexivity.
Qed.

(** The theorem for a dictionary whose first video has no ROI. *)
Lemma batch_stops_when_directory_cannot_be_made_witness :
  crop_video (λ p, p) (λ a b, a +:+ "/" +:+ b) (λ _, false) (λ _, true)
    "out" 0 "" "a.mp4" [("a.mp4", []); ("b.mp4", [roi_wide])] []
  = (Returned,
     mkLoopState [] 0
       [StatusReset; ShowProgressBar; OpenCapture "b.mp4"; MakeDirs "out/b.mp4";
        ShowError "Error Creating Directory"]).
Proof.
  apply (batch_stops_when_directory_cannot_be_made (λ p, p)
           (λ a b, a +:+ "/" +:+ b) (λ _, false) (λ _, true) "out" 0 ""
           "a.mp4" [("a.mp4", []); ("b.mp4", [roi_wide])] "b.mp4").
  - reflexivity.
  - discriminate.
  - discriminate.
  - reflexivity.
Defined.

Section batch_resources.

Variable stem : string → string.
Variable path_join : string → string → string.
Variable makedirs_ok : string → bool.
Variable ffmpeg_run : Job → bool.
Variable output_folder : string.
Variable boleanFilter : Z.
Variable textFilter : string.

Hypothesis makedirs_succeeds : ∀ p : string, makedirs_ok p = true.

(** The inner loop opens and releases no capture; it creates the folder
    of the video at most once, and only when it is missing. *)
Lemma crop_rois_resources (video_path : string) (total : nat) (rois : list Roi) :
  ∀ (i : nat) (st st' : LoopState),
    crop_rois stem path_join makedirs_ok ffmpeg_run output_folder boleanFilter
      textFilter video_path total i rois st = inl st' →
    captures (trace st') = captures (trace st) ∧
    ((made_dirs (trace st') = made_dirs (trace st) ∧ dirs st' = dirs st) ∨
     (made_dirs (trace st')
      = (made_dirs (trace st)
         ++ [subfolder_of stem path_join output_folder video_path]) ∧
      (subfolder_of stem path_join output_folder video_path ∉ dirs st) ∧
      dirs st' = subfolder_of stem path_join output_folder video_path :: dirs st)).
Proof.
  induction rois as [|roi rest IH]; intros i st st' Hrun.
  - injection Hrun as <-. split; [reflexivity|left; split; reflexivity].
  - cbn [crop_rois] in Hrun.
    set (sub := subfolder_of stem path_join output_folder video_path) in *.
    set (j := crop_job stem path_join output_folder boleanFilter textFilter
                video_path (S i) roi) in *.
    rewrite makedirs_succeeds in Hrun.
    destruct (bool_decide (sub ∈ dirs st)) eqn:Hex.
    + apply bool_decide_eq_true_1 in Hex.
      match type of Hrun with
      | crop_rois _ _ _ _ _ _ _ _ _ _ _ ?s = _ => set (st3 := s) in *
      end.
      assert (H3 : captures (trace st3) = captures (trace st) ∧
                   made_dirs (trace st3) = made_dirs (trace st) ∧
                   dirs st3 = dirs st).
      { unfold st3, captures, made_dirs. destruct (ffmpeg_run j); simpl;
          rewrite !omap_app; simpl; rewrite !app_nil_r; repeat split. }
      destruct H3 as (Hc3 & Hm3 & Hd3).
      apply IH in Hrun as [Hc [[Hm Hd]|(Hm & Hnot & Hd)]].
      * split; [congruence|]. left. split; congruence.
      * exfalso. apply Hnot. rewrite Hd3. exact Hex.
    + apply bool_decide_eq_false_1 in Hex.
      match type of Hrun with
      | crop_rois _ _ _ _ _ _ _ _ _ _ _ ?s = _ => set (st3 := s) in *
      end.
      assert (H3 : captures (trace st3) = captures (trace st) ∧
                   made_dirs (trace st3) = made_dirs (trace st) ++ [sub] ∧
                   dirs st3 = sub :: dirs st).
      { unfold st3, captures, made_dirs. destruct (ffmpeg_run j); simpl;
          rewrite !omap_app; simpl; rewrite !app_nil_r; repeat split. }
      destruct H3 as (Hc3 & Hm3 & Hd3).
      apply IH in Hrun as [Hc [[Hm Hd]|(Hm & Hnot & Hd)]].
      * split; [congruence|]. right. repeat split; [congruence|exact Hex|congruence].
      * exfalso. apply Hnot. rewrite Hd3. apply list_elem_of_here.
Qed.

Lemma crop_videos_resources (existing : list string) (total : nat)
    (items : list (string * list Roi)) :
  ∀ st st' : LoopState,
    crop_videos stem path_join makedirs_ok ffmpeg_run output_folder boleanFilter
      textFilter total items st = inl st' →
    NoDup (made_dirs (trace st)) →
    (∀ p : string, p ∈ made_dirs (trace st) → p ∈ dirs st ∧ p ∉ existing) →
    (∀ p : string, p ∈ existing → p ∈ dirs st) →
    captures (trace st')
    = captures (trace st)
      ++ flat_map (λ v, [(true, v); (false, v)]) (videos_with_rois items) ∧
    NoDup (made_dirs (trace st')) ∧
    (∀ p : string, p ∈ made_dirs (trace st') → p ∈ dirs st' ∧ p ∉ existing) ∧
    (∀ p : string,
       p ∈ made_dirs (trace st') →
       p ∈ made_dirs (trace st) ∨
       ∃ v, v ∈ videos_with_rois items ∧
            p = subfolder_of stem path_join output_folder v).
Proof.
  induction items as [|[v rois] rest IH]; intros st st' Hrun Hnd Hmade Hex.
  - injection Hrun as <-. simpl. rewrite app_nil_r. repeat split; auto.
    apply Hmade; assumption. apply Hmade; assumption.
  - cbn [crop_videos] in Hrun. destruct rois as [|roi rois'].
    + cbn [videos_with_rois]. apply IH; assumption.
    + destruct (crop_rois stem path_join makedirs_ok ffmpeg_run output_folder
                  boleanFilter textFilter v total 0 (roi :: rois')
                  (emit st (OpenCapture v))) as [st1|st1] eqn:Hrois; [|discriminate].
      apply crop_rois_resources in Hrois as [Hc1 Hcases].
      set (sub := subfolder_of stem path_join output_folder v) in *.
      assert (Hopen : captures (trace (emit st (OpenCapture v)))
                      = captures (trace st) ++ [(true, v)] ∧
                      made_dirs (trace (emit st (OpenCapture v)))
                      = made_dirs (trace st)).
      { unfold captures, made_dirs. simpl. rewrite !omap_app. simpl.
        rewrite app_nil_r. split; reflexivity. }
      destruct Hopen as [Hco Hmo]. rewrite Hco in Hc1. rewrite Hmo in Hcases.
      simpl dirs in Hcases.
      set (st2 := emit st1 (ReleaseCapture v)) in *.
      assert (Hrel : captures (trace st2) = captures (trace st1) ++ [(false, v)] ∧
                     made_dirs (trace st2) = made_dirs (trace st1) ∧
                     dirs st2 = dirs st1).
      { unfold st2, captures, made_dirs. simpl. rewrite !omap_app. simpl.
        rewrite app_nil_r. repeat split. }
      destruct Hrel as (Hc2 & Hm2 & Hd2).
      assert (Hinv2 : NoDup (made_dirs (trace st2)) ∧
                      (∀ p : string, p ∈ made_dirs (trace st2) →
                                     p ∈ dirs st2 ∧ p ∉ existing) ∧
                      (∀ p : string, p ∈ existing → p ∈ dirs st2) ∧
                      (∀ p : string, p ∈ made_dirs (trace st2) →
                                     p ∈ made_dirs (trace st) ∨ p = sub)).
      { rewrite Hm2, Hd2. destruct Hcases as [[Hm Hd]|(Hm & Hnot & Hd)].
        - rewrite Hm, Hd. repeat split; auto; apply Hmade; assumption.
        - rewrite Hm, Hd. split; [|split; [|split]].
          + apply NoDup_app. split; [exact Hnd|]. split; [|apply NoDup_singleton].
            intros p Hp Hp'. apply list_elem_of_singleton in Hp'. subst p.
            apply Hnot. apply Hmade. exact Hp.
          + intros p Hp. apply elem_of_app in Hp as [Hp|Hp].
            * split; [apply list_elem_of_further; apply Hmade; exact Hp
                     |apply Hmade; exact Hp].
            * apply list_elem_of_singleton in Hp. subst p.
              split; [apply list_elem_of_here|].
              intros Hin. apply Hnot. apply Hex. exact Hin.
          + intros p Hp. apply list_elem_of_further. apply Hex. exact Hp.
          + intros p Hp. apply elem_of_app in Hp as [Hp|Hp]; [left; exact Hp|].
            apply list_elem_of_singleton in Hp. right. exact Hp. }
      destruct Hinv2 as (Hnd2 & Hmade2 & Hex2 & Hfrom2).
      destruct (IH st2 st' Hrun Hnd2 Hmade2 Hex2) as (Hc & Hnd' & Hmade' & Hfrom').
      split.
      { rewrite Hc, Hc2, Hc1. cbn [videos_with_rois flat_map].
        rewrite <- !app_assoc. reflexivity. }
      split; [exact Hnd'|]. split; [exact Hmade'|].
      intros p Hp. destruct (Hfrom' p Hp) as [Hp2|(v' & Hv' & ->)].
      * destruct (Hfrom2 p Hp2) as [H|Heq]; [left; exact H|]. subst p.
        right. exists v. split; [apply list_elem_of_here|reflexivity].
      * right. exists v'. split; [apply list_elem_of_further; exact Hv'|reflexivity].
Qed.

End batch_resources.

(** X16. When every directory can be created, the batch opens a capture
    for each video that has ROIs, in dictionary order, and releases it
    before it opens the next; videos without ROIs are skipped.  An output
    folder is created at most once, never when it exists already, and
    only for a video that has ROIs. *)
Theorem batch_opens_and_creates_once
    (stem : string → string) (path_join : string → string → string)
    (makedirs_ok : string → bool) (ffmpeg_run : Job → bool)
    (output_folder : string) (boleanFilter : Z) (textFilter : string)
    (working_video_path : string) (roi_dict : list (string * list Roi))
    (existing : list string) :
  (∀ p : string, makedirs_ok p = true) →
  working_video_path ≠ "" → roi_dict ≠ [] → output_folder ≠ "" →
  ∃ st,
    crop_video stem path_join makedirs_ok ffmpeg_run output_folder boleanFilter
      textFilter working_video_path roi_dict existing = (Finished, st) ∧
    captures (trace st)
    = flat_map (λ v, [(true, v); (false, v)]) (videos_with_rois roi_dict) ∧
    NoDup (made_dirs (trace st)) ∧
    (∀ p : string,
       p ∈ made_dirs (trace st) →
       (p ∉ existing) ∧
       ∃ v, v ∈ videos_with_rois roi_dict ∧
            p = subfolder_of stem path_join output_folder v).
Proof.
  intros Hmk Hv Hd Ho. unfold crop_video.
  rewrite (bool_decide_eq_false_2 _ Hv), (bool_decide_eq_false_2 _ Ho).
  destruct roi_dict as [|item items]; [contradiction|].
  change (length (item :: items) <? 1)%nat with false. cbv iota.
  set (st1 := emit (emit (mkLoopState existing 0 []) StatusReset) ShowProgressBar).
  destruct (crop_videos_spec stem path_join makedirs_ok ffmpeg_run output_folder
              boleanFilter textFilter Hmk (total_crops_of (item :: items))
              (item :: items) st1) as (st' & Hrun & _).
  rewrite Hrun.
  apply (crop_videos_resources stem path_join makedirs_ok ffmpeg_run output_folder
           boleanFilter textFilter Hmk existing) in Hrun
    as (Hc & Hnd & Hmade & Hfrom).
  - eexists. split; [reflexivity|].
    unfold captures, made_dirs in *. simpl. rewrite !omap_app. simpl.
    rewrite !app_nil_r. split; [exact Hc|]. split; [exact Hnd|].
    intros p Hp. split; [apply Hmade; exact Hp|].
    destruct (Hfrom p Hp) as [H|H]; [inversion H|exact H].
  - constructor.
  - intros p Hp. inversion Hp.
  - intros p Hp. exact Hp.
Qed.

(** The theorem in the world of [example_run]. *)
Lemma batch_opens_and_creates_once_witness :
  ∃ st, example_run = (Finished, st) ∧
        captures (trace st)
        = [(true, "a.mp4"); (false, "a.mp4"); (true, "b.mp4"); (false, "b.mp4")] ∧
        NoDup (made_dirs (trace st)).
Proof.
  destruct (batch_opens_and_creates_once (λ p, p) (λ a b, a +:+ "/" +:+ b)
              (λ _, true) (λ j, negb (bool_decide (job_input j = "b.mp4")))
              "out" 0 "" "a.mp4"
              [("a.mp4", [roi_square; roi_far]); ("b.mp4", [roi_wide])] [])
    as (st & Hrun & Hc & Hnd & _).
  - reflexivity.
  - discriminate.
  - discriminate.
  - discriminate.
  - exists st. split; [exact Hrun|]. split; [exact Hc|exact Hnd].
Defined.

(** ** Exporting, filters and the host dictionary *)

(** X17. The CSV export writes one row per ROI, in the order in which the
    batch submits its jobs: as many rows as the batch counts crops, the
    k-th row naming the video that the k-th job reads; videos without
    ROIs contribute no row. *)
Theorem export_rows_follow_the_jobs
    (stem : string → string) (path_join : string → string → string)
    (output_folder : string) (boleanFilter : Z) (textFilter : string)
    (roi_dict : list (string * list Roi)) :
  length (export_rois roi_dict) = total_crops_of roi_dict ∧
  (λ row : csv_row, let '(vid, _, _, _, _) := row in vid) <$> export_rois roi_dict
  = job_input
      <$> batch_jobs stem path_join output_folder boleanFilter textFilter roi_dict ∧
  (λ row : csv_row, let '(_, x1, y1, x2, y2) := row in ((x1, y1), (x2, y2)))
    <$> export_rois roi_dict
  = coordinates <$> concat (snd <$> roi_dict).
Proof.
  assert (Hv : ∀ (v : string) (rois : list Roi) (i : nat),
             job_input
               <$> video_jobs stem path_join output_folder boleanFilter textFilter
                     v i rois
             = (λ row : csv_row, let '(vid, _, _, _, _) := row in vid)
                 <$> export_rows_of v rois).
  { intros v rois. induction rois as [|r rest IH]; intros i; [reflexivity|].
    change (export_rows_of v (r :: rest))
      with ((let '((x1, y1), (x2, y2)) := coordinates r in (v, x1, y1, x2, y2))
            :: export_rows_of v rest).
    cbn [video_jobs]. rewrite !fmap_cons, IH. f_equal.
    destruct (coordinates r) as [[? ?] [? ?]]. reflexivity. }
  assert (Hc : ∀ (v : string) (rois : list Roi),
             (λ row : csv_row, let '(_, x1, y1, x2, y2) := row in ((x1, y1), (x2, y2)))
               <$> export_rows_of v rois
             = coordinates <$> rois).
  { intros v rois. induction rois as [|r rest IH]; [reflexivity|].
    change (export_rows_of v (r :: rest))
      with ((let '((x1, y1), (x2, y2)) := coordinates r in (v, x1, y1, x2, y2))
            :: export_rows_of v rest).
    rewrite !fmap_cons, IH. f_equal.
    destruct (coordinates r) as [[? ?] [? ?]]. reflexivity. }
  induction roi_dict as [|[v rois] rest (IH1 & IH2 & IH3)]; [repeat split|].
  cbn [export_rois batch_jobs total_crops_of foldr fmap list_fmap snd concat].
  split; [|split].
  - rewrite length_app. unfold export_rows_of at 1. rewrite length_fmap.
    f_equal. exact IH1.
  - rewrite !fmap_app, Hv, IH2. reflexivity.
  - rewrite !fmap_app, Hc, IH3. reflexivity.
Qed.

Lemma string_append_assoc (a b c : string) : (a +:+ b) +:+ c = a +:+ (b +:+ c).
Proof.
  induction a as [|ch a IH]; [reflexivity|].
  change (String ch ((a +:+ b) +:+ c) = String ch (a +:+ (b +:+ c))).
  rewrite IH. reflexivity.
Qed.

Lemma string_append_nil (s : string) : s +:+ "" = s.
Proof.
  induction s as [|ch s IH]; [reflexivity|].
  change (String ch (s +:+ "") = String ch s). rewrite IH. reflexivity.
Qed.

Lemma prefix_append (s t : string) : String.prefix s (s +:+ t) = true.
Proof.
  induction s as [|ch s IH]; [destruct t; reflexivity|].
  change (String.prefix (String ch s) (String ch (s +:+ t)) = true).
  cbn [String.prefix].
  destruct (Ascii.ascii_dec ch ch) as [_|Hne]; [exact IH|contradiction].
Qed.

Lemma contains_middle (s a b : string) : contains s (a +:+ s +:+ b) = true.
Proof.
  induction a as [|ch a IH].
  - change ("" +:+ s +:+ b) with (s +:+ b).
    assert (H : ∀ t, String.prefix s t = true → contains s t = true).
    { intros t Ht. destruct t; cbn [contains]; rewrite Ht; reflexivity. }
    apply H, prefix_append.
  - change (String ch a +:+ s +:+ b) with (String ch (a +:+ s +:+ b)).
    cbn [contains]. rewrite IH. apply orb_true_r.
Qed.

(** X18. Adding a filter from the menu switches the filter on and leaves
    the filter text containing the added expression; the text that was
    there is kept in front, and adding the same expression again changes
    nothing. *)
Theorem filterAdd_adds_once (c : FilterControls) (filterString : string) :
  filter_flag (filterAdd c filterString) = 1 ∧
  contains filterString (text_get_all (filterAdd c filterString)) = true ∧
  (∃ added, filter_text (filterAdd c filterString) = filter_text c +:+ added) ∧
  filterAdd (filterAdd c filterString) filterString = filterAdd c filterString.
Proof.
  assert (Hin : contains filterString (text_get_all (filterAdd c filterString)) = true).
  { unfold filterAdd.
    destruct (contains filterString (text_get_all (toggleFilter c (Some 1)))) eqn:E;
      [exact E|].
    unfold text_get_all. simpl.
    rewrite string_append_assoc, string_append_assoc.
    rewrite <- (string_append_assoc (filter_text c) ", ").
    apply contains_middle. }
  split; [|split; [exact Hin|split]].
  - unfold filterAdd.
    destruct (contains filterString (text_get_all (toggleFilter c (Some 1))));
      reflexivity.
  - unfold filterAdd.
    destruct (contains filterString (text_get_all (toggleFilter c (Some 1)))).
    + exists "". simpl. symmetry. apply string_append_nil.
    + eexists. reflexivity.
  - unfold filterAdd at 1.
    assert (Ht : toggleFilter (filterAdd c filterString) (Some 1)
                 = filterAdd c filterString).
    { unfold filterAdd.
      destruct (contains filterString (text_get_all (toggleFilter c (Some 1))));
        reflexivity. }
    rewrite Ht, Hin. reflexivity.
Qed.

Lemma dict_get_set (d : list (string * list Roi)) (k q : string) (v : list Roi) :
  dict_get (dict_set d k v) q = if bool_decide (q = k) then Some v else dict_get d q.
Proof.
  induction d as [|[k' v'] rest IH]; simpl.
  - case_bool_decide as H1; case_bool_decide as H2; congruence.
  - destruct (bool_decide (k' = k)) eqn:Hk; simpl.
    + apply bool_decide_eq_true_1 in Hk. subst k'.
      case_bool_decide as H1; case_bool_decide as H2; congruence.
    + apply bool_decide_eq_false_1 in Hk. rewrite IH.
      case_bool_decide as H1; case_bool_decide as H2; congruence.
Qed.

Lemma dict_set_keys (d : list (string * list Roi)) (k : string) (v : list Roi) :
  fst <$> dict_set d k v
  = if bool_decide (k ∈ fst <$> d) then fst <$> d else (fst <$> d) ++ [k].
Proof.
  induction d as [|[k' v'] rest IH].
  - destruct (bool_decide (k ∈ fst <$> ([] : list (string * list Roi)))) eqn:E;
      [|reflexivity].
    apply bool_decide_eq_true_1 in E. inversion E.
  - cbn [dict_set]. rewrite fmap_cons. cbn [fst].
    destruct (bool_decide (k' = k)) eqn:Hk.
    + apply bool_decide_eq_true_1 in Hk. subst k'.
      destruct (bool_decide (k ∈ k :: (fst <$> rest))) eqn:E; [reflexivity|].
      apply bool_decide_eq_false_1 in E. exfalso. apply E, list_elem_of_here.
    + apply bool_decide_eq_false_1 in Hk.
      rewrite fmap_cons, IH. cbn [fst].
      destruct (bool_decide (k ∈ fst <$> rest)) eqn:E1;
        destruct (bool_decide (k ∈ k' :: (fst <$> rest))) eqn:E2; try reflexivity.
      * apply bool_decide_eq_true_1 in E1. apply bool_decide_eq_false_1 in E2.
        exfalso. apply E2, list_elem_of_further, E1.
      * apply bool_decide_eq_false_1 in E1. apply bool_decide_eq_true_1 in E2.
        exfalso. apply elem_of_cons in E2 as [E2|E2]; [congruence|contradiction].
Qed.

(** X19. Adding a video through the file dialog stores an empty ROI list
    for it: if the video is listed already, the ROIs drawn for it are
    discarded while its place in the processing order is kept; a new
    video goes to the end; the other videos keep their ROIs.  An empty
    answer or a path that is not a valid video changes nothing. *)
Theorem select_video_resets_its_rois
    (roi_dict : list (string * list Roi)) (file_path q : string) (valid : bool) :
  dict_get (select_video roi_dict file_path valid) q
  = (if negb (bool_decide (file_path = "")) && valid && bool_decide (q = file_path)
     then Some [] else dict_get roi_dict q) ∧
  fst <$> select_video roi_dict file_path valid
  = (if negb (bool_decide (file_path = "")) && valid
        && negb (bool_decide (file_path ∈ fst <$> roi_dict))
     then (fst <$> roi_dict) ++ [file_path] else fst <$> roi_dict).
Proof.
  unfold select_video.
  destruct (bool_decide (file_path = "")); simpl; [split; reflexivity|].
  destruct valid; simpl; [|split; reflexivity].
  rewrite dict_get_set, dict_set_keys.
  destruct (bool_decide (file_path ∈ fst <$> roi_dict)); split; reflexivity.
Qed.

(** ** The edit dialog *)

(** X20. Confirming changed values in the edit dialog stores corner 0
    first and corner 1 second, sorting after each: on either axis the
    ROI ends up spanning the value entered for corner 1 and the smaller
    of the value entered for corner 0 and the old corner 1.  So the
    entered rectangle is stored as entered (normalized) only where the
    new corner 0 does not exceed the old corner 1; the other ROIs, the
    selection and the saved flag are unchanged. *)
Theorem editRoi_close_result
    (w : RoiWindow) (roiKey : nat) (roi : Roi) (X_1 Y_1 X_2 Y_2 : Z) :
  roiCoordinates w !! roiKey = Some roi →
  ((X_1, Y_1), (X_2, Y_2)) ≠ coordinates roi →
  editRoi_close w roiKey X_1 Y_1 X_2 Y_2 true
  = Some (set_roiCoordinates w
            (<[roiKey :=
                 let ax := Z.min X_1 (fst (snd (coordinates roi))) in
                 let ay := Z.min Y_1 (snd (snd (coordinates roi))) in
                 {| coordinates := ((Z.min ax X_2, Z.min ay Y_2),
                                    (Z.max ax X_2, Z.max ay Y_2));
                    height := Z.max ay Y_2 - Z.min ay Y_2;
                    width := Z.max ax X_2 - Z.min ax X_2;
                    status := status roi |}]> (roiCoordinates w))).
Proof.
  intros Hl Hne. unfold editRoi_close. rewrite Hl. cbn [mbind option_bind].
  rewrite bool_decide_eq_false_2 by exact Hne.
  destruct roi as [[[x0 y0] [x1 y1]] h wd st]. reflexivity.
Qed.

(** The theorem on [roi_square]: entering the corners (150,0) and
    (200,100) leaves the ROI from x = 100 to x = 200. *)
Lemma editRoi_close_result_witness :
  ∃ w', editRoi_close (RoiWindow_init [roi_square]) 0 150 0 200 100 true = Some w' ∧
        coordinates <$> roiCoordinates w' = [((100, 0), (200, 100))].
Proof.
  eexists. split.
  - apply (editRoi_close_result (RoiWindow_init [roi_square]) 0 roi_square
             150 0 200 100 eq_refl).
    discriminate.
  - reflexivity.
Defined.

(** ** Drawing *)

Lemma params_colour (sel : list nat) (idx : nat) :
  match snd <$> List.filter (λ item : nat * (Z * Z * Z), bool_decide (fst item = idx))
                  ((λ key, (key, (0, 255, 0))) <$> sel) with
  | rgb :: _ => rgb
  | [] => (255, 0, 0)
  end
  = if decide (idx ∈ sel) then (0, 255, 0) else (255, 0, 0).
Proof.
  induction sel as [|k rest IH].
  - destruct (decide (idx ∈ [])) as [H|_]; [inversion H|reflexivity].
  - rewrite fmap_cons. cbn [List.filter fst].
    destruct (bool_decide (k = idx)) eqn:Hk.
    + apply bool_decide_eq_true_1 in Hk. subst k. rewrite fmap_cons. cbn [snd].
      destruct (decide (idx ∈ idx :: rest)) as [_|H]; [reflexivity|].
      exfalso. apply H, list_elem_of_here.
    + apply bool_decide_eq_false_1 in Hk. rewrite IH.
      destruct (decide (idx ∈ rest)) as [H1|H1];
        destruct (decide (idx ∈ k :: rest)) as [H2|H2]; try reflexivity.
      * exfalso. apply H2, list_elem_of_further, H1.
      * exfalso. apply elem_of_cons in H2 as [H2|H2]; [congruence|contradiction].
Qed.

Lemma drawAllRois_loop_spec (sel : list nat) (rois : list Roi) :
  ∀ idx : nat,
    drawAllRois_loop ((λ key, (key, (0, 255, 0))) <$> sel) idx rois
    = imap (λ i roi,
              drawRoi roi (idx + i + 1)
                (if decide ((idx + i)%nat ∈ sel) then (0, 255, 0) else (255, 0, 0)))
        rois.
Proof.
  induction rois as [|roi rest IH]; intros idx; [reflexivity|].
  cbn [drawAllRois_loop]. rewrite imap_cons. f_equal.
  - rewrite Nat.add_0_r, <- (params_colour sel idx).
    destruct (snd <$> List.filter (λ item : nat * (Z * Z * Z), bool_decide (fst item = idx))
                        ((λ key, (key, (0, 255, 0))) <$> sel)); reflexivity.
  - rewrite IH. apply imap_ext. intros i r _. unfold compose.
    replace (S idx + i)%nat with (idx + S i)%nat by lia. reflexivity.
Qed.

(** X21. Redrawing outlines every ROI of the collection once, in order,
    labelled 1, 2, ... from its index, with the colour (0,255,0) exactly
    when its index is selected and (255,0,0) otherwise; an index of the
    selection that is beyond the collection draws nothing. *)
Theorem drawAllRois_colours_the_selection (w : RoiWindow) :
  drawAllRois w
  = imap (λ i roi,
            drawRoi roi (i + 1)
              (if decide (i ∈ selection w) then (0, 255, 0) else (255, 0, 0)))
      (roiCoordinates w).
Proof. unfold drawAllRois. apply drawAllRois_loop_spec. Qed.

(** ** Closing the window *)

Lemma leftMouseMove_keeps_saved (w w' : RoiWindow) (x y : Z) :
  leftMouseMove w x y = Some w' → saved w' = saved w.
Proof.
  unfold leftMouseMove.
  destruct (dragging w) as [d|].
  - destruct (0 <? length (selection w))%nat; [|intros [= <-]; reflexivity].
    destruct (drag_selection x y (relativeCoordinates w) (selection w)
                (roiCoordinates w)) as [rois'|]; [|discriminate].
    intros [= <-]. reflexivity.
  - destruct (resizing w) as [[idx m]|].
    + destruct (roiCoordinates w !! idx) as [roi|]; [|discriminate].
      cbn [mbind option_bind].
      destruct (resize_roi x y m (relativeCoordinates w) roi) as [roi'|];
        [|discriminate].
      intros [= <-]. reflexivity.
    + destruct (Roi.setCoordinates (Roi.setStatus (newRoi w) true) 1 x y false)
        as [nr|]; [|discriminate].
      intros [= <-]. reflexivity.
Qed.

Lemma session_step_saved (w w' : RoiWindow) (ev : SessionEvent) :
  session_step w ev = Some w' →
  saved w' = if marks_dirty ev then false else if is_save ev then true else saved w.
Proof.
  destruct ev as [e| | | | |k|k a b c d r|p l o]; cbn [session_step marks_dirty is_save].
  - unfold mouseEvent. destruct (ev_type e).
    + destruct (ev_num e =? 1) eqn:Hn; cbn [andb].
      * destruct (Z.land (ev_state e) 1 =? 0); cbn [negb].
        -- intros H. apply leftMouseDown_keeps_saved in H. exact H.
        -- intros [= <-]. unfold shiftLeftMouseDown.
           destruct (shiftLeftMouseDown_loop_spec (ev_x e) (ev_y e)
                       (roiCoordinates w) 0 w) as (Heq & _).
           rewrite Heq. reflexivity.
      * destruct (ev_num e =? 3); intros [= <-]; [|reflexivity].
        unfold rightMouseDown.
        destruct (rightMouseDown_loop_spec (ev_x e) (ev_y e)
                    (roiCoordinates w) 0 w) as (Heq & _).
        rewrite Heq. reflexivity.
    + destruct ((ev_num e =? 1) && (Z.land (ev_state e) 1 =? 0)).
      * intros H. apply leftMouseUp_keeps_saved in H. exact H.
      * intros [= <-]. reflexivity.
    + destruct (ev_state e =? 264); [apply leftMouseMove_keeps_saved|].
      destruct (ev_state e =? 1032); intros [= <-]; reflexivity.
    + intros [= <-]. reflexivity.
  - intros [= <-]. reflexivity.
  - intros [= <-]. reflexivity.
  - unfold delete_key. apply deleteRoi_keeps_saved.
  - intros [= <-]. reflexivity.
  - apply deleteRoi_keeps_saved.
  - apply editRoi_close_keeps_saved.
  - intros [= <-]. unfold importRoisFile.
    destruct p; [|reflexivity]. destruct l as [l|]; [|reflexivity].
    destruct (0 <? length (roiCoordinates w))%nat; [destruct o|]; reflexivity.
Qed.

Lemma since_last_save_none (evs : list SessionEvent) :
  existsb is_save evs = false → since_last_save evs = evs.
Proof.
  destruct evs as [|ev rest]; [reflexivity|]. cbn [existsb since_last_save].
  intros H. apply orb_false_iff in H as [H1 H2]. rewrite H1, H2. reflexivity.
Qed.

Lemma session_run_saved (evs : list SessionEvent) :
  ∀ w w' : RoiWindow,
    session_run w evs = Some w' →
    saved w' = if existsb marks_dirty (since_last_save evs) then false
               else if existsb is_save evs then true else saved w.
Proof.
  induction evs as [|ev rest IH]; intros w w'.
  - intros [= <-]. reflexivity.
  - cbn [session_run]. destruct (session_step w ev) as [w1|] eqn:Hstep; [|discriminate].
    cbn [mbind option_bind]. intros Hrun.
    apply IH in Hrun. apply session_step_saved in Hstep.
    cbn [since_last_save existsb].
    destruct (existsb is_save rest) eqn:Hrest.
    + rewrite orb_true_r. exact Hrun.
    + rewrite (since_last_save_none rest Hrest) in Hrun.
      rewrite orb_false_r.
      destruct (is_save ev) eqn:Hsave.
      * destruct ev; try discriminate. rewrite Hrun, Hstep. reflexivity.
      * cbn [existsb]. rewrite Hrun, Hstep.
        destruct (marks_dirty ev); [rewrite orb_true_l|rewrite orb_false_l];
          destruct (existsb marks_dirty rest); reflexivity.
Qed.

(** X22. Whether closing asks "The ROIs were not saved" depends only on
    the events since the last save (or since the window was opened): the
    window is destroyed without a question unless one of them is a press
    or a release of button 1 without shift.  Deleting, editing through the
    dialog, importing, and selecting by shift or right click do not count:
    after a save, changes made in those ways only are dropped without a
    question. *)
Theorem close_asks_only_after_left_button
    (w w' : RoiWindow) (evs : list SessionEvent) (confirm : bool) :
  session_run w evs = Some w' →
  close w' confirm
  = if existsb marks_dirty (since_last_save evs) then confirm
    else if existsb is_save evs then true else close w confirm.
Proof.
  intros Hrun. apply session_run_saved in Hrun. unfold close. rewrite Hrun.
  destruct (existsb marks_dirty (since_last_save evs)); [reflexivity|].
  destruct (existsb is_save evs); reflexivity.
Qed.

(** The theorem on a session that draws a ROI, saves, and then deletes
    everything: the window closes without a question. *)
Lemma close_asks_only_after_left_button_witness :
  ∃ w', session_run (RoiWindow_init [roi_square])
          [down 300 300; move 320 330; up 320 330; EvSave; EvSelectAll; EvDelete]
        = Some w' ∧
        roiCoordinates w' = [] ∧ close w' false = true.
Proof.
  destruct (session_run (RoiWindow_init [roi_square])
              [down 300 300; move 320 330; up 320 330; EvSave; EvSelectAll; EvDelete])
    as [w'|] eqn:E; [|vm_compute in E; discriminate].
  exists w'. split; [reflexivity|]. split.
  - vm_compute in E. injection E as <-. reflexivity.
  - exact (close_asks_only_after_left_button (RoiWindow_init [roi_square]) w'
             [down 300 300; move 320 330; up 320 330; EvSave; EvSelectAll; EvDelete]
             false E).
Defined.
